(** * Bulk keyword generator: CSV parsing, run controller, aggregation

    A shallow embedding of the bulk pipeline of
    [src/components/PetInputForm.tsx] (the [BulkGenerator] component and
    the helpers [parseCSV] and [generateKeywordsFromApi]), followed by
    the properties of the specification that concern it.

    Conventions of the embedding.
    - A JavaScript string is a Rocq [string]; a character stands for a
      UTF-16 code unit below 256.  The white space set of [trim] and the
      case mapping of [toLowerCase] are the ECMAScript ones restricted
      to that range.
    - A JavaScript array is a [list], read with [!!]; a write through an
      index is [array_set], which is undefined ([None]) when the index
      lies beyond the end of the array.
    - A [CSVRow] object is the list of its own properties in insertion
      order.
    - An exception is a [None] result ([csvContent]) or a value of
      [Thrown] (the promise of [generateKeywordsFromApi]).
    - The state of the component holds rows of the declared type
      [ResultRow]; the module [Untyped] follows the handling of the
      response on any value that [JSON.parse] returns. *)

From Stdlib Require Import Ascii String List Bool Arith Lia.
From stdpp Require Import base tactics option list strings.


(** ** JavaScript strings *)

Module JsString.

Definition comma : ascii := ","%char.
Definition dquote : ascii := "034"%char.
Definition LF : ascii := "010"%char.
Definition CR : ascii := "013"%char.

(** [WhiteSpace] and [LineTerminator] code points below 256:
    TAB, LF, VT, FF, CR, SP and NBSP. *)
Definition is_white_space (c : ascii) : bool :=
  match nat_of_ascii c with
  | 9 | 10 | 11 | 12 | 13 | 32 | 160 => true
  | _ => false
  end.

(** [s.trimStart()] *)
Fixpoint trimStart (s : string) : string :=
  match s with
  | EmptyString => EmptyString
  | String c s' => if is_white_space c then trimStart s' else s
  end.

(** [s.trimEnd()] *)
Fixpoint trimEnd (s : string) : string :=
  match s with
  | EmptyString => EmptyString
  | String c s' =>
      match trimEnd s' with
      | EmptyString => if is_white_space c then EmptyString else String c EmptyString
      | t => String c t
      end
  end.

(** [s.trim()] *)
Definition trim (s : string) : string := trimEnd (trimStart s).

(** [s.replace(/\r\n/g, '\n')] *)
Fixpoint replace_crlf (s : string) : string :=
  match s with
  | EmptyString => EmptyString
  | String c s' =>
      match s' with
      | String c' s'' =>
          if (Ascii.eqb c CR && Ascii.eqb c' LF)%bool
          then String LF (replace_crlf s'')
          else String c (replace_crlf s')
      | EmptyString => String c EmptyString
      end
  end.

(** [s.replace(/Q/g, 'QQ')], where Q is the double quote character *)
Fixpoint double_quotes (s : string) : string :=
  match s with
  | EmptyString => EmptyString
  | String c s' =>
      if Ascii.eqb c dquote
      then String dquote (String dquote (double_quotes s'))
      else String c (double_quotes s')
  end.

(** Adds a character in front of the first piece of a split. *)
Definition cons_first (c : ascii) (pieces : list string) : list string :=
  match pieces with
  | [] => [String c EmptyString]
  | p :: ps => String c p :: ps
  end.

(** [s.split(sep)] for a separator that matches exactly one character:
    [is_sep c rest] tells whether the character [c], followed by [rest]
    up to the end of the string, is a separator.  The empty string
    splits into one empty piece. *)
Fixpoint split_on (is_sep : ascii -> string -> bool) (s : string) : list string :=
  match s with
  | EmptyString => [EmptyString]
  | String c s' =>
      if is_sep c s' then EmptyString :: split_on is_sep s'
      else cons_first c (split_on is_sep s')
  end.

(** [s.split(c)] *)
Definition split_char (sep : ascii) : string -> list string :=
  split_on (fun c _ => Ascii.eqb c sep).

(** [xs.join(sep)] *)
Fixpoint join (sep : string) (xs : list string) : string :=
  match xs with
  | [] => EmptyString
  | [x] => x
  | x :: xs' => x +:+ sep +:+ join sep xs'
  end.

(** [s.startsWith(Q)], where Q is the double quote character *)
Definition startsWith_dquote (s : string) : bool :=
  match s with
  | String c _ => Ascii.eqb c dquote
  | EmptyString => false
  end.

(** [s.endsWith(Q)] *)
Fixpoint endsWith_dquote (s : string) : bool :=
  match s with
  | EmptyString => false
  | String c EmptyString => Ascii.eqb c dquote
  | String _ s' => endsWith_dquote s'
  end.

Fixpoint remove_last (s : string) : string :=
  match s with
  | EmptyString => EmptyString
  | String c s' =>
      match s' with
      | EmptyString => EmptyString
      | _ => String c (remove_last s')
      end
  end.

(** [s.slice(1, -1)]: the string without its first and its last
    character; empty when [s] has fewer than two characters. *)
Definition slice_1_m1 (s : string) : string :=
  match s with
  | EmptyString => EmptyString
  | String _ s' => remove_last s'
  end.

(** One character of [toLowerCase]: A-Z and the Latin-1 capitals
    (U+00C0..U+00DE except the multiplication sign U+00D7) move up by
    32; every other code unit below 256 is its own lower case. *)
Definition lower_char (c : ascii) : ascii :=
  let n := nat_of_ascii c in
  if ((65 <=? n) && (n <=? 90))%nat
     || ((192 <=? n) && (n <=? 222) && negb (n =? 215))%nat
  then ascii_of_nat (n + 32) else c.

(** [s.toLowerCase()] *)
Fixpoint toLowerCase (s : string) : string :=
  match s with
  | EmptyString => EmptyString
  | String c s' => String (lower_char c) (toLowerCase s')
  end.

(** [xs.includes(s)] on an array of strings *)
Definition includes (xs : list string) (s : string) : bool :=
  existsb (String.eqb s) xs.

(** Truthiness of a string: [s ? .. : ..], [s || d], [.. && s]. *)
Definition truthy (s : string) : bool :=
  match s with EmptyString => false | _ => true end.

End JsString.

Import JsString.

(** A one-character string holding the double quote. *)
Definition Q : string := String dquote EmptyString.

(** ** CSV rows as objects *)

(** [interface CSVRow { [key: string]: string }]: the own properties of
    the object, in the order of their creation. *)
Definition CSVRow : Type := list (string * string).

(** What a property read [row[key]] can produce. *)
Inductive PropertyValue : Type :=
  | PString (s : string)     (* an own property *)
  | PInherited               (* a member of [Object.prototype] *)
  | PUndefined.

(** The property names of [Object.prototype] (all of them objects or
    functions, hence truthy and without a [replace] method). *)
Definition object_prototype_keys : list string :=
  [ "constructor"; "hasOwnProperty"; "isPrototypeOf"; "propertyIsEnumerable";
    "toLocaleString"; "toString"; "valueOf"; "__defineGetter__";
    "__defineSetter__"; "__lookupGetter__"; "__lookupSetter__"; "__proto__" ].

Fixpoint own_property (key : string) (row : CSVRow) : option string :=
  match row with
  | [] => None
  | (k, v) :: row' => if String.eqb k key then Some v else own_property key row'
  end.

(** [row[key]] *)
Definition row_get (row : CSVRow) (key : string) : PropertyValue :=
  match own_property key row with
  | Some v => PString v
  | None => if includes object_prototype_keys key then PInherited else PUndefined
  end.

Fixpoint define_property (key value : string) (row : CSVRow) : CSVRow :=
  match row with
  | [] => [(key, value)]
  | (k, v) :: row' =>
      if String.eqb k key then (k, value) :: row'
      else (k, v) :: define_property key value row'
  end.

(** [row[key] = value] for a string [value].  The name [__proto__] is
    the accessor of [Object.prototype], whose setter ignores a value
    that is neither an object nor [null]: no own property is created.
    Every other name creates or overwrites an own property. *)
Definition row_set (key value : string) (row : CSVRow) : CSVRow :=
  if String.eqb key "__proto__" then row else define_property key value row.

(** ** parseCSV *)

Record CsvData : Type := mkCsvData { headers : list string; rows : list CSVRow }.

(** The look-ahead [(?=(?:(?:[^Q]*Q){2})*[^Q]*$)] of the row splitter
    (Q is the double quote character), run as a scanner: [pending] tells
    that the group [(?:[^Q]*Q){2}] has consumed its first quote and still
    needs its second one.  The end of the string is accepted only
    between two groups. *)
Fixpoint lookahead_from (pending : bool) (rest : string) : bool :=
  match rest with
  | EmptyString => negb pending
  | String c rest' =>
      lookahead_from (if Ascii.eqb c dquote then negb pending else pending) rest'
  end.

Definition lookahead : string -> bool := lookahead_from false.

(** [line.split(/,(?=(?:(?:[^Q]*Q){2})*[^Q]*$)/)]: a separator is a
    comma whose look-ahead succeeds on the rest of the line. *)
Definition is_row_sep (c : ascii) (rest : string) : bool :=
  Ascii.eqb c comma && lookahead rest.

Definition split_row : string -> list string := split_on is_row_sep.

(** [value.startsWith(Q) && value.endsWith(Q) ? value.slice(1, -1) : value] *)
Definition strip_quotes (value : string) : string :=
  if startsWith_dquote value && endsWith_dquote value then slice_1_m1 value else value.

(** [(values[i] || '').trim()] *)
Definition field_at (values : list string) (i : nat) : string :=
  trim (match values !! i with Some v => v | None => EmptyString end).

(** [headers.forEach((header, i) => { row[header] = cell(i) })] on the
    columns [(i, header)], from left to right. *)
Definition assign_columns (cell : nat → string) (cols : list (nat * string)) (row : CSVRow)
  : CSVRow :=
  fold_left (fun row hi => row_set (snd hi) (cell (fst hi)) row) cols row.

(** The callback of [lines.slice(1).map(line => ..)]. *)
Definition parse_row (hs : list string) (line : string) : CSVRow :=
  let values := split_row line in
  assign_columns (fun i => strip_quotes (field_at values i))
                 (combine (seq 0 (length hs)) hs) [].

(** The variable [lines] of [parseCSV]. *)
Definition lines_of (text : string) : list string :=
  split_char LF (replace_crlf (trim text)).

Definition parseCSV (text : string) : CsvData :=
  match lines_of text with
  | first :: (_ :: _) as rest =>
      let hs := map trim (split_char comma first) in
      mkCsvData hs (map (parse_row hs) rest)
  | _ => mkCsvData [] []
  end.

(** ** generateKeywordsFromApi: the request *)

Definition RESERVED_KEYS : list string := ["filename"; "title"; "content"].

(** An array index is a canonical numeric string below [2^32 - 1]. *)
Definition digit_value (c : ascii) : option N :=
  let n := N_of_ascii c in
  if ((48 <=? n) && (n <=? 57))%N then Some (n - 48)%N else None.

Fixpoint digits_value (acc : N) (s : string) : option N :=
  match s with
  | EmptyString => Some acc
  | String c s' =>
      match digit_value c with
      | Some d => digits_value (acc * 10 + d)%N s'
      | None => None
      end
  end.

Definition array_index (key : string) : option N :=
  match key with
  | EmptyString => None
  | String c rest =>
      if Ascii.eqb c "0"%char
      then (match rest with EmptyString => Some 0%N | _ => None end)
      else match digits_value 0 key with
           | Some n => if (n <? 4294967295)%N then Some n else None
           | None => None
           end
  end.

Definition is_array_index (kv : string * string) : bool :=
  match array_index (fst kv) with Some _ => true | None => false end.

Definition index_leb (kv1 kv2 : string * string) : bool :=
  match array_index (fst kv1), array_index (fst kv2) with
  | Some a, Some b => (a <=? b)%N
  | _, _ => true
  end.

Fixpoint insert_sorted (kv : string * string) (l : list (string * string)) :=
  match l with
  | [] => [kv]
  | kv' :: l' => if index_leb kv kv' then kv :: l else kv' :: insert_sorted kv l'
  end.

(** [Object.entries(row)]: the properties named by an array index come
    first, by ascending index; the others follow in creation order. *)
Definition Object_entries (row : CSVRow) : list (string * string) :=
  fold_right insert_sorted [] (List.filter is_array_index row)
  ++ List.filter (fun kv => negb (is_array_index kv)) row.

Record Attribute : Type := mkAttribute { label : string; value : string }.

(** The test [!RESERVED_KEYS.includes(key.toLowerCase()) && value]. *)
Definition is_attribute (kv : string * string) : bool :=
  negb (includes RESERVED_KEYS (toLowerCase (fst kv))) && truthy (snd kv).

(** [Object.entries(row).filter(..).map(([key, value]) => ({ label: key, value }))] *)
Definition attributes (row : CSVRow) : list Attribute :=
  map (fun kv => mkAttribute (fst kv) (snd kv))
      (List.filter is_attribute (Object_entries row)).

(** [row.title || ''] and [row.content || '']: neither name belongs to
    [Object.prototype], so the read gives the own property or
    [undefined]; an empty own value is replaced by the empty string. *)
Definition own_or_empty (key : string) (row : CSVRow) : string :=
  match row_get row key with
  | PString v => v
  | _ => EmptyString
  end.

Definition title (row : CSVRow) : string := own_or_empty "title" row.
Definition content (row : CSVRow) : string := own_or_empty "content" row.

Definition NL : string := String LF EmptyString.

Definition attributesText (row : CSVRow) : string :=
  match attributes row with
  | [] => EmptyString
  | attrs =>
      NL +:+ NL +:+ "Attributes:" +:+ NL
      +:+ join NL (map (fun attr => "- " +:+ label attr +:+ ": " +:+ value attr) attrs)
  end.

(** The only part of the request that depends on the row. *)
Definition userPrompt (row : CSVRow) : string :=
  "Generate keywords for the following document:" +:+ NL +:+ NL
  +:+ "Title: " +:+ title row +:+ attributesText row +:+ NL +:+ NL
  +:+ "Description: " +:+ content row.

(** ** generateKeywordsFromApi: the response *)

(** A thrown value, as the [catch] clause of [processRow] tells them
    apart: an instance of [Error] with its message, or anything else. *)
Inductive Thrown : Type :=
  | ThrownError (message : string)
  | ThrownOther.

(** [JSON.parse(response.text)] when the function returns what its
    declared type [Promise<string[]>] says, a truthy [keywords] being
    an array of strings.  Nothing in the code checks this: the module
    [Untyped] below follows the function on any parsed value. *)
Inductive ParsedJson : Type :=
  | JsonFalsy                           (* [result] is falsy *)
  | JsonNoKeywords                      (* [result.keywords] is absent or falsy *)
  | JsonKeywords (kws : list string).

(** How the awaited call ends: [ai.models.generateContent] rejects or
    [JSON.parse] throws, or a value is parsed. *)
Inductive ApiReply : Type :=
  | Rejects (err : Thrown)
  | Parses (result : ParsedJson).

Definition generateKeywordsFromApi (reply : ApiReply) : Thrown + list string :=
  match reply with
  | Rejects err => inl err
  | Parses (JsonKeywords kws) => inr kws
  | Parses _ => inl (ThrownError "Could not parse keywords from the response.")
  end.

(** ** The component state *)

Inductive RowStatus : Type := Pending | Processing | Completed | Error.

Module ResultRow.

Record t : Type := mk { status : RowStatus; keywords : list string; error : option string }.

End ResultRow.

Abbreviation ResultRow := ResultRow.t.

Inductive Status : Type := Idle | Running | Paused | Done.

Record File : Type := mkFile { file_name : string; file_type : string; file_text : string }.

(** One run of [processRow]: the [currentIndex] its closure captured and
    the [isCancelled] flag of the effect that started it. *)
Record Call : Type := mkCall { call_index : nat; call_row : CSVRow; isCancelled : bool }.

Record State : Type := mkState {
  file : option File;
  csvData : CsvData;
  results : list ResultRow;
  status : Status;
  currentIndex : nat;
  error : option string;
  calls : list Call;      (* awaited calls that have not settled yet *)
  reads : list File       (* [FileReader]s that have not fired [onload] yet *)
}.

Definition initial : State :=
  mkState None (mkCsvData [] []) [] Idle 0 None [] [].

Definition is_terminal (r : ResultRow) : bool :=
  match ResultRow.status r with Completed | Error => true | _ => false end.
Definition is_processing (r : ResultRow) : bool :=
  match ResultRow.status r with Processing => true | _ => false end.
Definition is_pending (r : ResultRow) : bool :=
  match ResultRow.status r with Pending => true | _ => false end.
Definition is_completed (r : ResultRow) : bool :=
  match ResultRow.status r with Completed => true | _ => false end.

(** [newResults[i] = x] on a copy of the array.  JavaScript grows the
    array when [i] is not below its length; the model has no holes and
    gives [None] there ([step_defined] shows it never happens). *)
Definition array_set {A} (i : nat) (x : A) (l : list A) : option (list A) :=
  if decide (i < length l) then Some (<[i:=x]> l) else None.

Definition cancel (c : Call) : Call := mkCall (call_index c) (call_row c) true.

Definition set_calls (cs : list Call) (s : State) : State :=
  mkState (file s) (csvData s) (results s) (status s) (currentIndex s) (error s) cs (reads s).

(** The effect with dependencies [[status, currentIndex, csvData.rows]],
    as it runs after a commit that changed one of them.  First the
    cleanup of the previous run raises its [isCancelled] (older runs
    were cancelled before).  Then, when the run is underway and a row
    is left, [processRow] marks the row as processing and awaits the
    call; when no row is left the status becomes [Done], and the run of
    the effect that this triggers returns at once. *)
Definition run_effect (s : State) : option State :=
  let cs := map cancel (calls s) in
  match status s with
  | Running =>
      match rows (csvData s) !! currentIndex s with
      | Some row =>
          match results s !! currentIndex s with
          | Some r =>
              let r' := ResultRow.mk Processing (ResultRow.keywords r) (ResultRow.error r) in
              Some (mkState (file s) (csvData s) (<[currentIndex s := r']> (results s))
                            Running (currentIndex s) (error s)
                            (cs ++ [mkCall (currentIndex s) row false]) (reads s))
          | None => None
          end
      | None =>
          Some (mkState (file s) (csvData s) (results s) Done (currentIndex s) (error s)
                        cs (reads s))
      end
  | _ => Some (set_calls cs s)
  end.

(** What the [try]/[catch] of [processRow] writes for a settled call. *)
Definition settled_row (reply : ApiReply) : ResultRow :=
  match generateKeywordsFromApi reply with
  | inr kws => ResultRow.mk Completed kws None
  | inl (ThrownError message) => ResultRow.mk Error [] (Some message)
  | inl ThrownOther => ResultRow.mk Error [] (Some "Unknown error")
  end.

Inductive Event : Type :=
  | SelectFile (f : File)                  (* [handleFileChange] with a file chosen *)
  | FileLoaded (n : nat)                   (* [reader.onload] of the [n]-th pending read *)
  | Toggle                                 (* [toggleProcessing] *)
  | Reset                                  (* [handleReset] *)
  | Settled (n : nat) (reply : ApiReply).  (* the [n]-th awaited call settles *)

Definition handleFileChange (f : File) (s : State) : State :=
  if String.eqb (file_type f) "text/csv"
  then mkState (Some f) (csvData s) (results s) (status s) (currentIndex s) None
               (calls s) (reads s ++ [f])
  else mkState (file s) (csvData s) (results s) (status s) (currentIndex s)
               (Some "Please upload a valid CSV file.") (calls s) (reads s).

Definition onload (f : File) (s : State) : option State :=
  let parsed := parseCSV (file_text f) in
  if (length (rows parsed) =? 0) || (length (headers parsed) =? 0)
  then Some (mkState (file s) (csvData s) (results s) (status s) (currentIndex s)
                     (Some "CSV is empty or invalid.") (calls s) (reads s))
  else run_effect
         (mkState (file s) parsed (replicate (length (rows parsed)) (ResultRow.mk Pending [] None))
                  (status s) (currentIndex s) (error s) (calls s) (reads s)).

Definition handleReset (s : State) : option State :=
  run_effect (mkState None (mkCsvData [] []) [] Idle 0 None (calls s) (reads s)).

Definition toggleProcessing (s : State) : option State :=
  run_effect (mkState (file s) (csvData s) (results s)
                      (match status s with Running => Paused | _ => Running end)
                      (currentIndex s) (error s) (calls s) (reads s)).

(** The continuation of [processRow] after the [await]. *)
Definition settle (c : Call) (reply : ApiReply) (s : State) : option State :=
  if isCancelled c then Some s
  else
    match array_set (call_index c) (settled_row reply) (results s) with
    | Some results' =>
        run_effect (mkState (file s) (csvData s) results' (status s)
                            (S (currentIndex s)) (error s) (calls s) (reads s))
    | None => None
    end.

Definition set_reads (rs : list File) (s : State) : State :=
  mkState (file s) (csvData s) (results s) (status s) (currentIndex s) (error s) (calls s) rs.

(** One event of the event loop, with the state updates of its handler
    committed together and the effect flushed before the next event.
    An event that names no pending read or call changes nothing. *)
Definition step (s : State) (e : Event) : option State :=
  match e with
  | SelectFile f => Some (handleFileChange f s)
  | FileLoaded n =>
      match reads s !! n with
      | Some f => onload f (set_reads (delete n (reads s)) s)
      | None => Some s
      end
  | Toggle => toggleProcessing s
  | Reset => handleReset s
  | Settled n reply =>
      match calls s !! n with
      | Some c => settle c reply (set_calls (delete n (calls s)) s)
      | None => Some s
      end
  end.

Fixpoint run (events : list Event) (s : State) : option State :=
  match events with
  | [] => Some s
  | e :: events' =>
      match step s e with
      | Some s' => run events' s'
      | None => None
      end
  end.

Definition reachable (s : State) : Prop := exists events, run events initial = Some s.

(** ** The aggregator *)

(** [Array.from(new Set(xs))]: the values in the order of their first
    occurrence. *)
Definition Set_add (acc : list string) (x : string) : list string :=
  if includes acc x then acc else acc ++ [x].

Definition Array_from_Set (xs : list string) : list string := fold_left Set_add xs [].

(** The memoised [allKeywords] of the component. *)
Definition allKeywords (results : list ResultRow) : list string :=
  Array_from_Set
    (flat_map ResultRow.keywords
       (List.filter (fun r => is_completed r && (0 <? length (ResultRow.keywords r)))
                    results)).

Definition status_name (st : RowStatus) : string :=
  match st with
  | Pending => "pending"
  | Processing => "processing"
  | Completed => "completed"
  | Error => "error"
  end.

(** [result.status === 'error' ? `Error: ${result.error}` : result.status];
    a missing [error] is printed as [undefined] by the template. *)
Definition status_cell (r : ResultRow) : string :=
  match ResultRow.status r with
  | Error =>
      "Error: " +:+ (match ResultRow.error r with Some m => m | None => "undefined" end)
  | st => status_name st
  end.

(** The template that puts a double quote on each side of [body]. *)
Definition quoted (body : string) : string := Q +:+ body +:+ Q.

(** One cell of [originalValues].  An own value, or the empty string
    for [undefined], is escaped and quoted; an inherited member of
    [Object.prototype] has no [replace] method and the call throws. *)
Definition original_value (row : CSVRow) (h : string) : option string :=
  match row_get row h with
  | PString v => Some (quoted (double_quotes v))
  | PUndefined => Some (quoted EmptyString)
  | PInherited => None
  end.

(** The callback of [csvData.rows.map((row, index) => ..)];
    [results[index]] may be [undefined], and reading its [keywords]
    throws. *)
Definition export_row (hs : list string) (row : CSVRow) (result : option ResultRow)
  : option string :=
  r ← result;
  originalValues ← mapM (original_value row) hs;
  Some (join "," (originalValues
                  ++ [quoted (join "; " (ResultRow.keywords r)); quoted (status_cell r)])).

(** [csvContent] of [handleDownload]; [None] when building it throws. *)
Definition csvContent (s : State) : option string :=
  let hs := headers (csvData s) in
  lines ← mapM (fun ir => export_row hs (snd ir) (results s !! fst ir))
               (imap pair (rows (csvData s)));
  Some (join NL (join "," (hs ++ ["Keywords"; "Status"]) :: lines)).

(** ** Invariants of the event loop *)

(** Every record of the table owns a property for every header, the
    name __proto__ apart. *)
Definition rows_cover_headers (d : CsvData) : Prop :=
  ∀ row h, row ∈ rows d → h ∈ headers d → h ≠ "__proto__" → is_Some (own_property h row).

(** What holds between two events of the event loop. *)
Record Inv (s : State) : Prop := mkInv {
  (* one outcome per record *)
  inv_length : length (results s) = length (rows (csvData s));
  (* a call that is not cancelled belongs to the row under the cursor,
     which is marked as processing, and the run is underway *)
  inv_active : ∀ c, c ∈ calls s → isCancelled c = false →
    call_index c = currentIndex s ∧ status s = Running ∧
    ∃ r, results s !! currentIndex s = Some r ∧ ResultRow.status r = Processing;
  (* no row but the one under the cursor is marked as processing *)
  inv_processing : ∀ i r, results s !! i = Some r →
    ResultRow.status r = Processing → i = currentIndex s;
  (* while the run is underway the row under the cursor is in flight *)
  inv_running : status s = Running →
    ∃ r, results s !! currentIndex s = Some r ∧ ResultRow.status r = Processing;
  (* every record has a value for every header *)
  inv_rows : rows_cover_headers (csvData s)
}.

Definition processing_count (rs : list ResultRow) : nat :=
  length (List.filter is_processing rs).


(** The state variables of the component, without the bookkeeping of
    pending calls and reads. *)
Definition react_state (s : State)
  : option File * CsvData * list ResultRow * Status * nat * option string :=
  (file s, csvData s, results s, status s, currentIndex s, error s).

(** The events of a run: starting, pausing, resuming, and calls that
    settle. *)
Definition run_event (e : Event) : Prop :=
  match e with
  | Toggle | Settled _ _ => True
  | _ => False
  end.

(** Calls that settle, each given by its place among the awaited calls
    and its reply. *)
Definition arrivals (late : list (nat * ApiReply)) : list Event :=
  map (fun nr => Settled (fst nr) (snd nr)) late.

Definition all_cancelled (s : State) : Prop :=
  ∀ c, c ∈ calls s → isCancelled c = true.

(** Rows before the cursor are finished, rows after it are untouched,
    and the row under the cursor has not finished. *)
Definition run_shape (s : State) : Prop :=
  (∀ i r, i < currentIndex s → results s !! i = Some r → is_terminal r = true) ∧
  (∀ i r, currentIndex s < i → results s !! i = Some r → is_pending r = true) ∧
  (∀ r, results s !! currentIndex s = Some r → is_pending r = true ∨ is_processing r = true).

Definition pending_row : ResultRow := ResultRow.mk Pending [] None.

(** The state once the table of [f] is loaded and nothing else has
    happened. *)
Definition loaded (f : File) : State :=
  let parsed := parseCSV (file_text f) in
  mkState (Some f) parsed (replicate (length (rows parsed)) (ResultRow.mk Pending [] None))
          Idle 0 None [] [].

(** The file and the run of the example scenario. *)
Definition demo_file : File :=
  mkFile "docs.csv" "text/csv"
         ("fileName,title,content" +:+ NL +:+ "doc1.csv," +:+ quoted "Annual Report" +:+ ","
          +:+ quoted "Revenue grew" +:+ NL +:+ "doc2.csv,Budget,Costs fell").

Definition demo_start : list Event := [SelectFile demo_file; FileLoaded 0; Toggle].

(** The demo run just after the start, with the first row in flight. *)
Definition demo_running : State :=
  Eval vm_compute in default initial (run demo_start initial).

Definition demo_keywords : ApiReply := Parses (JsonKeywords ["revenue"; "annual report"]).
Definition demo_rate_limited : ApiReply := Rejects (ThrownError "rate limited").
Definition demo_quote_error : ApiReply :=
  Rejects (ThrownError ("Unexpected token " +:+ Q)).

(** [key] differs from the lower-case [name] by the case of some of
    its letters only. *)
Definition case_variant_of (name key : string) : Prop :=
  toLowerCase key = name ∧ key ≠ name.

(** [c] occurs in [s]. *)
Fixpoint contains (c : ascii) (s : string) : bool :=
  match s with
  | EmptyString => false
  | String x s' => Ascii.eqb x c || contains c s'
  end.

(** The strings that the look-ahead [(?:(?:[^Q]*Q){2})*[^Q]*$] matches,
    read off the expression: a tail without double quote, or one more
    group of two quote-terminated runs in front of a match. *)
Inductive lookahead_matches : string → Prop :=
  | lookahead_tail tail :
      contains dquote tail = false → lookahead_matches tail
  | lookahead_group a b rest :
      contains dquote a = false → contains dquote b = false →
      lookahead_matches rest →
      lookahead_matches (a +:+ Q +:+ b +:+ Q +:+ rest).

(** A field the way a CSV writer lays it out: free of commas and
    double quotes, or enclosed in double quotes with none in between. *)
Definition simple_field (f : string) : Prop :=
  (contains dquote f = false ∧ contains comma f = false)
  ∨ ∃ body, f = quoted body ∧ contains dquote body = false.

(** No character of [f] is a separator when [f] is followed by [tail]. *)
Fixpoint sep_free (is_sep : ascii → string → bool) (f tail : string) : bool :=
  match f with
  | EmptyString => true
  | String x f' => negb (is_sep x (f' +:+ tail)) && sep_free is_sep f' tail
  end.

(** The state in which the scanner of the look-ahead leaves a string. *)
Fixpoint scan (pending : bool) (s : string) : bool :=
  match s with
  | EmptyString => pending
  | String c s' => scan (if Ascii.eqb c dquote then negb pending else pending) s'
  end.

(** Reads a text in which every double quote is written twice; fails
    on a double quote that stands alone. *)
Fixpoint undouble (s : string) : option string :=
  match s with
  | EmptyString => Some EmptyString
  | String c s' =>
      if Ascii.eqb c dquote then
        match s' with
        | String c' s'' =>
            if Ascii.eqb c' dquote then option_map (String dquote) (undouble s'') else None
        | EmptyString => None
        end
      else option_map (String c) (undouble s')
  end.

(** A field rendered as the claim on the export has it: its double
    quotes doubled, and a double quote on each side. *)
Definition csv_field (v : string) : string := quoted (double_quotes v).

(** The fields of the exported table, line by line, before any
    quoting: the header names with the two derived names, then for each
    record its values under the headers, its keywords joined and its
    status cell. *)
Definition export_fields (s : State) : option (list (list string)) :=
  let hs := headers (csvData s) in
  data ← mapM (fun ir =>
                 r ← results s !! fst ir;
                 values ← mapM (fun h => match row_get (snd ir) h with
                                          | PString v => Some v
                                          | PUndefined => Some EmptyString
                                          | PInherited => None
                                          end) hs;
                 Some (values ++ [join "; " (ResultRow.keywords r); status_cell r]))
              (imap pair (rows (csvData s)));
  Some ((hs ++ ["Keywords"; "Status"]) :: data).

(** The export in which every field of every line is rendered by
    [csv_field]. *)
Definition csvContent_all_quoted (s : State) : option string :=
  fields ← export_fields s;
  Some (join NL (map (fun line => join "," (map csv_field line)) fields)).

(** The demo run at its end. *)
Definition demo_done : State :=
  Eval vm_compute in
    default initial (run (demo_start ++ map (Settled 0) [demo_keywords; demo_rate_limited])
                         initial).

(** A table whose header line has a quoted name with a comma in it. *)
Definition quoted_header_text : string :=
  "fileName," +:+ quoted "company, legal name" +:+ ",title" +:+ NL
  +:+ "doc1.csv," +:+ quoted "Acme, Inc." +:+ ",Report".

(** A table whose data row has a quoted value with a comma in it and,
    in a later field, a double quote that stands for inches. *)
Definition stray_quote_text : string :=
  "fileName,company,size" +:+ NL
  +:+ "a.pdf," +:+ quoted "Acme, Inc." +:+ ",5" +:+ Q +:+ " pipe".

(** A table whose data row has a quoted value with a comma in it. *)
Definition acme_text : string :=
  "fileName,company,title" +:+ String CR NL
  +:+ "a.pdf," +:+ quoted "Acme, Inc." +:+ ",Annual report".

(** ** The response without the declared types *)

(** [Promise<string[]>] and [ResultRow] are declarations: at run time
    [JSON.parse] returns any JSON value, and [generateKeywordsFromApi]
    and [processRow] pass on what they get.  This module follows the
    two on such values.  [ApiReply] above holds the responses for
    which the row written has the type [ResultRow], as [typed_reply]
    and [typed_row] say. *)

Module Untyped.

(** A value that [JSON.parse] returns.  Of a number the code can only
    test whether it is zero. *)
#[warnings="-register-all"] Inductive Json : Type :=
  | JNull
  | JBool (b : bool)
  | JNumber (is_zero : bool)
  | JString (s : string)
  | JArray (elements : list Json)
  | JObject (members : list (string * Json)).

Definition is_truthy (v : Json) : bool :=
  match v with
  | JNull => false
  | JBool b => b
  | JNumber is_zero => negb is_zero
  | JString s => truthy s
  | JArray _ | JObject _ => true
  end.

(** The member of an object under [key]; of members with the same name
    [JSON.parse] keeps the last. *)
Fixpoint member (key : string) (members : list (string * Json)) : option Json :=
  match members with
  | [] => None
  | (k, v) :: members' =>
      match member key members' with
      | Some v' => Some v'
      | None => if String.eqb k key then Some v else None
      end
  end.

(** [result.keywords] for a truthy [result]: a member of an object, and
    [undefined] on a string, a number, a boolean or an array, whose
    prototypes have no property of that name. *)
Definition keywords_property (result : Json) : option Json :=
  match result with
  | JObject members => member "keywords" members
  | _ => None
  end.

(** How the awaited call ends: [ai.models.generateContent] rejects or
    [JSON.parse] throws, or [JSON.parse] returns [result]. *)
Inductive Response : Type :=
  | Throws (err : Thrown)
  | Returns (result : Json).

(** [if (result && result.keywords) return result.keywords; else throw ..] *)
Definition generateKeywordsFromApi (resp : Response) : Thrown + Json :=
  match resp with
  | Throws err => inl err
  | Returns result =>
      match (if is_truthy result then keywords_property result else None) with
      | Some keywords =>
          if is_truthy keywords then inr keywords
          else inl (ThrownError "Could not parse keywords from the response.")
      | None => inl (ThrownError "Could not parse keywords from the response.")
      end
  end.

(** [err instanceof Error ? err.message : 'Unknown error'] *)
Definition errorMessage (err : Thrown) : string :=
  match err with
  | ThrownError message => message
  | ThrownOther => "Unknown error"
  end.

(** The object that [processRow] stores at [currentIndex]. *)
Record Written : Type := mkWritten {
  w_status : RowStatus;
  w_keywords : Json;
  w_error : option string
}.

(** The [try] and the [catch] of [processRow]. *)
Definition processRow (resp : Response) : Written :=
  match generateKeywordsFromApi resp with
  | inr keywords => mkWritten Completed keywords None
  | inl err => mkWritten Error (JArray []) (Some (errorMessage err))
  end.

(** The strings of an array of strings. *)
Definition strings_of (v : Json) : option (list string) :=
  match v with
  | JArray elements =>
      mapM (fun element => match element with JString s => Some s | _ => None end) elements
  | _ => None
  end.

(** The response as an [ApiReply]: there is none when [keywords] is
    truthy and not an array of strings. *)
Definition typed_reply (resp : Response) : option ApiReply :=
  match resp with
  | Throws err => Some (Rejects err)
  | Returns result =>
      if is_truthy result then
        match keywords_property result with
        | Some keywords =>
            if is_truthy keywords
            then kws ← strings_of keywords; Some (Parses (JsonKeywords kws))
            else Some (Parses JsonNoKeywords)
        | None => Some (Parses JsonNoKeywords)
        end
      else Some (Parses JsonFalsy)
  end.

(** The object written as a [ResultRow], when it is one. *)
Definition typed_row (w : Written) : option ResultRow :=
  kws ← strings_of (w_keywords w); Some (ResultRow.mk (w_status w) kws (w_error w)).

End Untyped.

(** A response with a string where the array of keywords is expected,
    and a thrown [Error] whose message is empty. *)
Definition demo_keywords_string : Untyped.Response :=
  Untyped.Returns (Untyped.JObject [("keywords", Untyped.JString "abc")]).
Definition demo_empty_error : Untyped.Response := Untyped.Throws (ThrownError "").
Definition demo_rejected : Untyped.Response := Untyped.Throws (ThrownError "rate limited").

(** ** Further invariants of the event loop *)

(** The awaited calls whose result can still be written. *)
Definition live_calls (s : State) : list Call :=
  List.filter (fun c => negb (isCancelled c)) (calls s).

(** What holds between two events, besides [Inv]. *)
Record Inv_calls (s : State) : Prop := mkInv_calls {
  (* no two awaited calls can both write *)
  inv_one_live : length (live_calls s) ≤ 1;
  (* while the run is underway the call of the row under the cursor is
     awaited, with the record of that row *)
  inv_live_row : status s = Running →
    ∃ row, rows (csvData s) !! currentIndex s = Some row ∧
           mkCall (currentIndex s) row false ∈ calls s;
  (* the finished rows lie before the cursor *)
  inv_terminal : ∀ i r, results s !! i = Some r → is_terminal r = true → i < currentIndex s
}.

(** ** Further notions on texts *)

(** Every character of [s] is white space for [trim]. *)
Fixpoint all_white_space (s : string) : bool :=
  match s with
  | EmptyString => true
  | String c s' => is_white_space c && all_white_space s'
  end.

(** The number of occurrences of [c] in [s]. *)
Fixpoint count_char (c : ascii) (s : string) : nat :=
  match s with
  | EmptyString => 0
  | String x s' => (if Ascii.eqb x c then 1 else 0) + count_char c s'
  end.

(** The line end of a Windows text file. *)
Definition CRLF : string := String CR NL.

(** A table with header names that are array indices. *)
Definition years_text : string := "name,2020,2019" +:+ NL +:+ "a,7,5".

(** The test that [row_set] makes on the name of a property. *)
Definition not_proto (h : string) : bool := negb (String.eqb h "__proto__").

(** ** The pet form ([PetInputForm]) *)

Module PetInputForm.

(** The chosen image, as far as the form looks at it: its size in
    bytes, and the address that [URL.createObjectURL] gives for it. *)
Record ImageFile : Type := mkImageFile { size : N; objectURL : string }.

(** The argument of [onAnalyze]. *)
Record FormData : Type := mkFormData {
  fd_name : string; fd_breed : string; fd_age : string; fd_quirks : string;
  fd_imageFile : ImageFile
}.

Record State : Type := mkState {
  name : string;
  breed : string;
  age : string;
  quirks : string;
  imageFile : option ImageFile;
  imagePreview : option string;
  error : option string
}.

Definition initial : State := mkState "" "" "" "" None None None.

(** [4 * 1024 * 1024] *)
Definition size_limit : N := 4 * 1024 * 1024.

(** [handleImageChange], on [e.target.files?.[0]]. *)
Definition handleImageChange (chosen : option ImageFile) (s : State) : State :=
  match chosen with
  | Some f =>
      if (size_limit <? size f)%N
      then mkState (name s) (breed s) (age s) (quirks s) (imageFile s) (imagePreview s)
                   (Some "Image size cannot exceed 4MB.")
      else mkState (name s) (breed s) (age s) (quirks s) (Some f) (Some (objectURL f)) None
  | None => s
  end.

(** [handleSubmit]: the new state and the calls of [onAnalyze]. *)
Definition handleSubmit (s : State) : State * list FormData :=
  match imageFile s with
  | Some f =>
      if truthy (name s) && truthy (breed s) && truthy (age s) && truthy (quirks s)
      then (mkState (name s) (breed s) (age s) (quirks s) (imageFile s) (imagePreview s) None,
            [mkFormData (name s) (breed s) (age s) (quirks s) f])
      else (mkState (name s) (breed s) (age s) (quirks s) (imageFile s) (imagePreview s)
                    (Some "Please fill out all fields and upload an image."), [])
  | None =>
      (mkState (name s) (breed s) (age s) (quirks s) (imageFile s) (imagePreview s)
               (Some "Please fill out all fields and upload an image."), [])
  end.

Inductive Event : Type :=
  | SetName (v : string)       (* [onChange] of the name input *)
  | SetBreed (v : string)
  | SetAge (v : string)
  | SetQuirks (v : string)
  | ImageChange (chosen : option ImageFile)
  | Submit.

Definition step (s : State) (e : Event) : State * list FormData :=
  match e with
  | SetName v =>
      (mkState v (breed s) (age s) (quirks s) (imageFile s) (imagePreview s) (error s), [])
  | SetBreed v =>
      (mkState (name s) v (age s) (quirks s) (imageFile s) (imagePreview s) (error s), [])
  | SetAge v =>
      (mkState (name s) (breed s) v (quirks s) (imageFile s) (imagePreview s) (error s), [])
  | SetQuirks v =>
      (mkState (name s) (breed s) (age s) v (imageFile s) (imagePreview s) (error s), [])
  | ImageChange chosen => (handleImageChange chosen s, [])
  | Submit => handleSubmit s
  end.

(** The state after a sequence of events, and the calls of [onAnalyze]
    made on the way, in order. *)
Fixpoint run (events : list Event) (s : State) : State * list FormData :=
  match events with
  | [] => (s, [])
  | e :: events' =>
      let '(s1, calls1) := step s e in
      let '(s2, calls2) := run events' s1 in
      (s2, calls1 ++ calls2)
  end.

(** What a call of [onAnalyze] is expected to carry. *)
Definition complete (fd : FormData) : Prop :=
  fd_name fd ≠ "" ∧ fd_breed fd ≠ "" ∧ fd_age fd ≠ "" ∧ fd_quirks fd ≠ "" ∧
  (size (fd_imageFile fd) ≤ size_limit)%N.

(** The stored image respects the limit and the preview shows it. *)
Definition image_ok (s : State) : Prop :=
  match imageFile s with
  | Some f => (size f ≤ size_limit)%N ∧ imagePreview s = Some (objectURL f)
  | None => imagePreview s = None
  end.

End PetInputForm.

(** ** The single-document form ([App]) *)

Module App.

Record State : Type := mkState {
  title : string;
  content : string;
  productLine : string;
  documentLevel : string;
  toolsPanel : string;
  operationalControlPlan : string;
  func : string;
  country : string;
  region : string;
  language : string;
  keywords : list string;
  isLoading : bool;
  error : option string;
  copySuccess : string
}.

(** The array of labelled values that [handleGenerateKeywords] builds
    before it filters it. *)
Definition attribute_fields (s : State) : list (string * string) :=
  [ ("Product Line", productLine s);
    ("Document Level", documentLevel s);
    ("Tools Panel", toolsPanel s);
    ("Operational Control Plan", operationalControlPlan s);
    ("Function", func s);
    ("Country", country s);
    ("Region", region s);
    ("Language", language s) ].

(** [attr.value.trim() !== ''] *)
Definition is_filled (lv : string * string) : bool :=
  negb (String.eqb (trim (snd lv)) "").

Definition attributes (s : State) : list Attribute :=
  map (fun lv => mkAttribute (fst lv) (snd lv)) (List.filter is_filled (attribute_fields s)).

Definition attributesText (s : State) : string :=
  match attributes s with
  | [] => EmptyString
  | attrs =>
      NL +:+ NL +:+ "Attributes:" +:+ NL
      +:+ join NL (map (fun attr => "- " +:+ label attr +:+ ": " +:+ value attr) attrs)
  end.

Definition userPrompt (s : State) : string :=
  "Generate keywords for the following document:" +:+ NL +:+ NL
  +:+ "Title: " +:+ title s +:+ attributesText s +:+ NL +:+ NL
  +:+ "Description: " +:+ content s.

(** [!title.trim() && !content.trim()] *)
Definition is_blank (s : State) : bool :=
  negb (truthy (trim (title s))) && negb (truthy (trim (content s))).

(** [handleGenerateKeywords] up to its [await]: the new state, and the
    prompt of the request when one is sent. *)
Definition submit (s : State) : State * option string :=
  if is_blank s
  then (mkState (title s) (content s) (productLine s) (documentLevel s) (toolsPanel s)
                (operationalControlPlan s) (func s) (country s) (region s) (language s)
                (keywords s) (isLoading s)
                (Some "Please provide a title or description to generate keywords.")
                (copySuccess s),
        None)
  else (mkState (title s) (content s) (productLine s) (documentLevel s) (toolsPanel s)
                (operationalControlPlan s) (func s) (country s) (region s) (language s)
                [] true None "",
        Some (userPrompt s)).

Definition set_result (kws : list string) (err : option string) (s : State) : State :=
  mkState (title s) (content s) (productLine s) (documentLevel s) (toolsPanel s)
          (operationalControlPlan s) (func s) (country s) (region s) (language s)
          kws false err (copySuccess s).

(** [handleGenerateKeywords] after its [await]: the [try] body, the
    [catch] and the [finally]. *)
Definition settle (reply : ApiReply) (s : State) : State :=
  match reply with
  | Parses (JsonKeywords kws) => set_result kws (error s) s
  | Parses _ => set_result (keywords s) (Some "Could not parse keywords from the response.") s
  | Rejects (ThrownError message) =>
      set_result (keywords s) (Some ("An error occurred: " +:+ message)) s
  | Rejects ThrownOther => set_result (keywords s) (Some "An unknown error occurred.") s
  end.

(** The inputs of the form: [field] names the state variable. *)
Inductive Field : Type :=
  | FTitle | FContent | FProductLine | FDocumentLevel | FToolsPanel
  | FOperationalControlPlan | FFunction | FCountry | FRegion | FLanguage.

(** The [onChange] handler of an input. *)
Definition edit (field : Field) (v : string) (s : State) : State :=
  let upd (f : Field) (old : string) := match f, field with
    | FTitle, FTitle | FContent, FContent | FProductLine, FProductLine
    | FDocumentLevel, FDocumentLevel | FToolsPanel, FToolsPanel
    | FOperationalControlPlan, FOperationalControlPlan | FFunction, FFunction
    | FCountry, FCountry | FRegion, FRegion | FLanguage, FLanguage => v
    | _, _ => old
    end in
  mkState (upd FTitle (title s)) (upd FContent (content s))
          (upd FProductLine (productLine s)) (upd FDocumentLevel (documentLevel s))
          (upd FToolsPanel (toolsPanel s))
          (upd FOperationalControlPlan (operationalControlPlan s))
          (upd FFunction (func s)) (upd FCountry (country s)) (upd FRegion (region s))
          (upd FLanguage (language s))
          (keywords s) (isLoading s) (error s) (copySuccess s).

Definition edits (changes : list (Field * string)) (s : State) : State :=
  fold_left (fun s fv => edit (fst fv) (snd fv) s) changes s.

(** The record that the bulk generator would read for the same
    document. *)
Definition as_row (s : State) : CSVRow :=
  ("title", title s) :: ("content", content s) :: attribute_fields s.

End App.

(** ** Reading an export back *)

(** [v] has neither carriage return nor line feed. *)
Definition no_line_break (v : string) : Prop :=
  contains CR v = false ∧ contains LF v = false.

(** A header name as [parseCSV] produces them, that is on one line,
    trimmed and free of commas, and that [row_set] accepts. *)
Definition clean_header (h : string) : Prop :=
  trim h = h ∧ contains comma h = false ∧ no_line_break h ∧ h ≠ "__proto__".

(** A derived cell that the export can enclose in double quotes as it
    is. *)
Definition plain_cell (v : string) : Prop :=
  contains dquote v = false ∧ no_line_break v.

(** A field that the row splitter keeps whole in any line of such
    fields: it leaves the scanner of the look-ahead where it found it,
    and none of its commas is a separator. *)
Definition balanced_field (f : string) : Prop :=
  scan false f = false ∧
  ∀ tail, scan false tail = false → sep_free is_row_sep f tail = true.

(** The values of a record under the headers, an absent one read as
    the empty string. *)
Definition values_of (hs : list string) (row : CSVRow) : list string :=
  map (fun h => default "" (own_property h row)) hs.

(** The line that the export writes for a record and its outcome. *)
Definition export_line (hs : list string) (row : CSVRow) (r : ResultRow) : string :=
  join "," (map quoted (map double_quotes (values_of hs row)
                        ++ [join "; " (ResultRow.keywords r); status_cell r])).

(** [s] starts with a character that [trim] keeps. *)
Definition starts_solid (s : string) : bool :=
  match s with
  | String c _ => negb (is_white_space c)
  | EmptyString => false
  end.

(** * Properties *)

(** ** Sanity checks of the parser *)

Example parse_acme :
  parseCSV ("fileName,company,title" +:+ String CR (String LF
            ("a.pdf," +:+ Q +:+ "Acme, Inc." +:+ Q +:+ ", Annual report ")))
  = mkCsvData ["fileName"; "company"; "title"]
      [[("fileName", "a.pdf"); ("company", "Acme, Inc."); ("title", "Annual report")]].
Proof. reflexivity. Qed.

(** ** The invariant is kept by every event *)

Lemma elem_of_map_cancel c cs : c ∈ map cancel cs → isCancelled c = true.
Proof. intros Hc. apply list_elem_of_fmap in Hc as (c' & -> & _). reflexivity. Qed.

Lemma run_effect_inv s :
  length (results s) = length (rows (csvData s)) →
  (∀ i r, results s !! i = Some r → ResultRow.status r = Processing → i = currentIndex s) →
  rows_cover_headers (csvData s) →
  ∃ s', run_effect s = Some s' ∧ Inv s'.
Proof.
  intros Hlen Hproc Hrows. unfold run_effect.
  destruct (status s) eqn:Hst;
    try (eexists; split; [reflexivity|];
         split; simpl; try done;
         [ intros c Hc Hf; apply elem_of_map_cancel in Hc; congruence
         | rewrite Hst; done ]).
  destruct (rows (csvData s) !! currentIndex s) as [row|] eqn:Hrow.
  - pose proof (lookup_lt_Some _ _ _ Hrow) as Hlt. rewrite <- Hlen in Hlt.
    destruct (lookup_lt_is_Some_2 _ _ Hlt) as [r Hr]. rewrite Hr.
    eexists; split; [reflexivity|]. split; simpl.
    + rewrite length_insert. done.
    + intros c Hc Hf. apply elem_of_app in Hc as [Hc|Hc].
      * apply elem_of_map_cancel in Hc. congruence.
      * apply list_elem_of_singleton in Hc as ->. simpl. repeat split.
        eexists. split; [apply list_lookup_insert_eq; done|]. reflexivity.
    + intros i r0 Hi Hp. destruct (decide (i = currentIndex s)) as [->|Hne]; [done|].
      rewrite list_lookup_insert_ne in Hi by done. eauto.
    + intros _. eexists. split; [apply list_lookup_insert_eq; done|]. reflexivity.
    + done.
  - eexists; split; [reflexivity|]. split; simpl; try done.
    intros c Hc Hf. apply elem_of_map_cancel in Hc. congruence.
Qed.

Lemma elem_of_delete {A} (x : A) n (l : list A) : x ∈ delete n l → x ∈ l.
Proof.
  revert n. induction l as [|y l IH]; intros [|n]; simpl; intros H.
  - done.
  - done.
  - by apply elem_of_cons; right.
  - apply elem_of_cons in H as [->|H]; apply elem_of_cons; [by left|right; eauto].
Qed.

Lemma own_define_eq k v row : own_property k (define_property k v row) = Some v.
Proof.
  induction row as [|[k' v'] row IH]; simpl.
  - by rewrite String.eqb_refl.
  - destruct (String.eqb k' k) eqn:E; simpl; rewrite E; done.
Qed.

Lemma own_define_ne k k' v row :
  k ≠ k' → own_property k' (define_property k v row) = own_property k' row.
Proof.
  intros Hne. induction row as [|[k0 v0] row IH]; simpl.
  - destruct (String.eqb k k') eqn:E; [apply String.eqb_eq in E; done|done].
  - destruct (String.eqb k0 k) eqn:E; simpl.
    + apply String.eqb_eq in E as ->.
      destruct (String.eqb k k') eqn:E'; [apply String.eqb_eq in E'; done|done].
    + destruct (String.eqb k0 k'); done.
Qed.

Lemma own_row_set_eq k v row : k ≠ "__proto__" → own_property k (row_set k v row) = Some v.
Proof.
  intros Hk. unfold row_set.
  destruct (String.eqb k "__proto__") eqn:E; [apply String.eqb_eq in E; done|].
  apply own_define_eq.
Qed.

Lemma own_row_set_ne k k' v row :
  k ≠ k' → own_property k' (row_set k v row) = own_property k' row.
Proof.
  intros Hne. unfold row_set. destruct (String.eqb k "__proto__"); [done|].
  by apply own_define_ne.
Qed.

Lemma own_row_set_is_Some k k' v row :
  is_Some (own_property k' row) → is_Some (own_property k' (row_set k v row)).
Proof.
  intros H. unfold row_set. destruct (String.eqb k "__proto__"); [done|].
  destruct (decide (k = k')) as [->|Hne].
  - rewrite own_define_eq. eauto.
  - by rewrite own_define_ne.
Qed.

Lemma assign_columns_keeps cell cols row h :
  is_Some (own_property h row) → is_Some (own_property h (assign_columns cell cols row)).
Proof.
  revert row. induction cols as [|[i k] cols IH]; simpl; intros row H; [done|].
  apply IH. by apply own_row_set_is_Some.
Qed.

Lemma assign_columns_defines cell cols row h :
  h ∈ cols.*2 → h ≠ "__proto__" → is_Some (own_property h (assign_columns cell cols row)).
Proof.
  revert row. induction cols as [|[i k] cols IH]; simpl; intros row Hin Hne.
  - by apply elem_of_nil in Hin.
  - apply elem_of_cons in Hin as [->|Hin].
    + apply assign_columns_keeps. rewrite own_row_set_eq by done. eauto.
    + by apply IH.
Qed.

Lemma snd_combine_seq {A} (l : list A) n : (combine (seq n (length l)) l).*2 = l.
Proof.
  revert n. induction l as [|x l IH]; intros n; simpl; [done|]. by rewrite IH.
Qed.

Lemma parse_row_covers hs line h :
  h ∈ hs → h ≠ "__proto__" → is_Some (own_property h (parse_row hs line)).
Proof.
  intros Hin Hne. unfold parse_row. apply assign_columns_defines; [|done].
  by rewrite snd_combine_seq.
Qed.

Lemma parseCSV_covers text : rows_cover_headers (parseCSV text).
Proof.
  unfold parseCSV, rows_cover_headers.
  destruct (lines_of text) as [|first [|l rest]]; simpl;
    intros row h Hrow Hh Hne; try by apply elem_of_nil in Hrow.
  change (row ∈ map (parse_row (map trim (split_char comma first))) (l :: rest)) in Hrow.
  apply list_elem_of_fmap in Hrow as (line & -> & _).
  by apply parse_row_covers.
Qed.

Lemma step_inv s e : Inv s → ∃ s', step s e = Some s' ∧ Inv s'.
Proof.
  intros [Hlen Hact Hproc Hrun Hrows]. destruct e as [f|n| | |n reply]; simpl.
  - eexists; split; [reflexivity|]. unfold handleFileChange.
    destruct (String.eqb (file_type f) "text/csv"); split; simpl; done.
  - destruct (reads s !! n) as [f|]; [|eexists; split; [reflexivity|done]].
    unfold onload.
    destruct (_ || _) eqn:E.
    + eexists; split; [reflexivity|]. split; simpl; done.
    + apply run_effect_inv; simpl.
      * by rewrite length_replicate.
      * intros i r Hi Hp. apply lookup_replicate in Hi as [-> _]. done.
      * apply parseCSV_covers.
  - apply run_effect_inv; simpl; done.
  - apply run_effect_inv; simpl; [done| |].
    + intros i r Hi. by rewrite lookup_nil in Hi.
    + intros row h Hrow. by apply elem_of_nil in Hrow.
  - destruct (calls s !! n) as [c|] eqn:Hc; [|eexists; split; [reflexivity|done]].
    unfold settle. destruct (isCancelled c) eqn:Hcan.
    + eexists; split; [reflexivity|]. split; simpl; try done.
      intros c' Hc'. apply elem_of_delete in Hc'. by apply Hact.
    + destruct (Hact c) as (Hidx & Hst & r & Hr & Hp); [by eapply list_elem_of_lookup_2|done|].
      simpl. unfold array_set. rewrite Hidx.
      pose proof (lookup_lt_Some _ _ _ Hr) as Hlt.
      destruct (decide (currentIndex s < length (results s))); [|lia].
      apply run_effect_inv; simpl.
      * by rewrite length_insert.
      * intros i r0 Hi Hp0.
        destruct (decide (i = currentIndex s)) as [->|Hne].
        -- rewrite list_lookup_insert_eq in Hi by done. injection Hi as <-.
           unfold settled_row in Hp0.
           destruct (generateKeywordsFromApi reply) as [[]|]; discriminate.
        -- rewrite list_lookup_insert_ne in Hi by done.
           specialize (Hproc _ _ Hi Hp0). done.
      * done.
Qed.

Lemma initial_inv : Inv initial.
Proof.
  split; simpl; try done.
  - intros c Hc. by apply elem_of_nil in Hc.
  - intros row h Hrow. by apply elem_of_nil in Hrow.
Qed.

Lemma run_inv events s : Inv s → ∃ s', run events s = Some s' ∧ Inv s'.
Proof.
  revert s. induction events as [|e events IH]; intros s HI; simpl.
  - eauto.
  - destruct (step_inv s e HI) as (s' & -> & HI'). eauto.
Qed.

Lemma run_app evs1 evs2 s :
  run (evs1 ++ evs2) s = s' ← run evs1 s; run evs2 s'.
Proof.
  revert s. induction evs1 as [|e evs1 IH]; intros s; simpl; [done|].
  destruct (step s e); simpl; eauto.
Qed.

Lemma reachable_inv s : reachable s → Inv s.
Proof.
  intros [events Hrun]. destruct (run_inv events initial initial_inv) as (s' & Hs' & HI).
  congruence.
Qed.

(** No event of a reachable state writes beyond the end of [results]:
    the event loop never leaves the model. *)
Lemma step_defined s e : reachable s → is_Some (step s e).
Proof. intros H. destruct (step_inv s e (reachable_inv s H)) as (s' & -> & _). eauto. Qed.

(** ** Facts about the effect *)

Lemma run_effect_frame s s' :
  run_effect s = Some s' →
  currentIndex s' = currentIndex s ∧ csvData s' = csvData s ∧ file s' = file s ∧
  error s' = error s ∧ reads s' = reads s ∧
  length (results s') = length (results s) ∧
  (∀ i, i ≠ currentIndex s → results s' !! i = results s !! i).
Proof.
  unfold run_effect. intros H.
  destruct (status s);
    try (injection H as <-; simpl; repeat split; done).
  destruct (rows (csvData s) !! currentIndex s); [|injection H as <-; simpl; repeat split; done].
  destruct (results s !! currentIndex s); [|done].
  injection H as <-; simpl; repeat split; try done.
  - by rewrite length_insert.
  - intros i Hi. by rewrite list_lookup_insert_ne.
Qed.

(** The two ways the effect ends while the run is underway. *)
Lemma run_effect_running s s' :
  status s = Running → run_effect s = Some s' →
  (currentIndex s < length (rows (csvData s)) ∧ status s' = Running ∧
   (∃ r, results s' !! currentIndex s = Some r ∧ ResultRow.status r = Processing) ∧
   (∃ row, rows (csvData s) !! currentIndex s = Some row ∧
           calls s' = map cancel (calls s) ++ [mkCall (currentIndex s) row false]))
  ∨ (length (rows (csvData s)) ≤ currentIndex s ∧ status s' = Done ∧
     results s' = results s ∧ calls s' = map cancel (calls s)).
Proof.
  unfold run_effect. intros -> H.
  destruct (rows (csvData s) !! currentIndex s) as [row|] eqn:Hrow.
  - destruct (results s !! currentIndex s) as [r|] eqn:Hr; [|done].
    injection H as <-. left. simpl. repeat split.
    + by eapply lookup_lt_Some.
    + eexists. split; [apply list_lookup_insert_eq; by eapply lookup_lt_Some|done].
    + eauto.
  - injection H as <-. right. simpl. repeat split. by apply lookup_ge_None.
Qed.

Lemma run_effect_not_running s s' :
  status s ≠ Running → run_effect s = Some s' →
  status s' = status s ∧ results s' = results s ∧ calls s' = map cancel (calls s).
Proof.
  unfold run_effect. intros Hst H.
  destruct (status s) eqn:E; try done; injection H as <-; simpl; rewrite ?E; done.
Qed.

Lemma is_processing_spec r : is_processing r = true ↔ ResultRow.status r = Processing.
Proof. unfold is_processing. destruct (ResultRow.status r); split; done. Qed.

Lemma processing_count_0 (rs : list ResultRow) :
  (∀ i r, rs !! i = Some r → ResultRow.status r ≠ Processing) →
  processing_count rs = 0.
Proof.
  unfold processing_count. induction rs as [|x rs IH]; intros H; simpl; [done|].
  destruct (is_processing x) eqn:Hx.
  - apply is_processing_spec in Hx. by destruct (H 0 x).
  - apply IH. intros i r Hi. apply (H (S i) r Hi).
Qed.

Lemma processing_count_le_1 (rs : list ResultRow) k :
  (∀ i r, rs !! i = Some r → ResultRow.status r = Processing → i = k) →
  processing_count rs ≤ 1.
Proof.
  revert k. induction rs as [|x rs IH]; intros k H; [unfold processing_count; simpl; lia|].
  unfold processing_count. simpl. destruct (is_processing x) eqn:Hx; simpl.
  - apply is_processing_spec in Hx. assert (k = 0) as -> by (symmetry; by apply (H 0 x)).
    fold (processing_count rs). rewrite processing_count_0; [lia|].
    intros i r Hi Hp. specialize (H (S i) r Hi Hp). lia.
  - apply (IH (pred k)). intros i r Hi Hp. specialize (H (S i) r Hi Hp). lia.
Qed.

Lemma settled_row_terminal reply : is_terminal (settled_row reply) = true.
Proof.
  unfold settled_row. destruct (generateKeywordsFromApi reply) as [[]|]; done.
Qed.

(** What an event does to the cursor: it stays, it returns to zero
    ([Reset]), or it moves one row ahead when the call of the current
    row settles while its effect is still in charge. *)
Lemma step_cursor s e s' :
  Inv s → step s e = Some s' →
  currentIndex s' = currentIndex s ∨ currentIndex s' = 0 ∨
  (currentIndex s' = S (currentIndex s) ∧
   ∃ n reply c, e = Settled n reply ∧ calls s !! n = Some c ∧ isCancelled c = false ∧
     call_index c = currentIndex s ∧
     (∃ r, results s !! currentIndex s = Some r ∧ ResultRow.status r = Processing) ∧
     results s' !! currentIndex s = Some (settled_row reply)).
Proof.
  intros HI. destruct e as [f|n| | |n reply]; simpl.
  - intros [= <-]. left. unfold handleFileChange. by destruct (String.eqb _ _).
  - destruct (reads s !! n) as [f|]; [|intros [= <-]; by left].
    unfold onload. destruct (_ || _); [intros [= <-]; by left|].
    intros H%run_effect_frame. left. by destruct H as [-> _].
  - intros H%run_effect_frame. left. by destruct H as [-> _].
  - intros H%run_effect_frame. right; left. by destruct H as [-> _].
  - destruct (calls s !! n) as [c|] eqn:Hc; [|intros [= <-]; by left].
    unfold settle. destruct (isCancelled c) eqn:Hcan; [intros [= <-]; by left|].
    unfold array_set. simpl.
    destruct (decide (call_index c < length (results s))) as [Hlt|]; [|done].
    intros H%run_effect_frame. simpl in H.
    destruct H as (Hcur & _ & _ & _ & _ & _ & Hres).
    destruct (inv_active s HI c) as (Hidx & _ & Hr); [by eapply list_elem_of_lookup_2|done|].
    right; right. split; [done|]. exists n, reply, c. repeat split; try done.
    rewrite Hres by lia. rewrite <- Hidx. by apply list_lookup_insert_eq.
Qed.

(** ** The run controller *)

(** C8.  In every reachable state at most one row outcome is
    [Processing]; and whenever an event moves the cursor forward, it
    moves it by exactly one, the row it leaves was the one being
    processed, and that row's outcome is terminal ([Completed] or
    [Error]) once the cursor has moved. *)
Theorem one_row_in_flight (s : State) :
  reachable s →
  processing_count (results s) ≤ 1 ∧
  ∀ e s', step s e = Some s' → currentIndex s < currentIndex s' →
    currentIndex s' = S (currentIndex s) ∧
    (∃ r, results s !! currentIndex s = Some r ∧ ResultRow.status r = Processing) ∧
    (∃ r', results s' !! currentIndex s = Some r' ∧ is_terminal r' = true).
Proof.
  intros HI%reachable_inv. split.
  - eapply processing_count_le_1. apply (inv_processing s HI).
  - intros e s' Hstep Hlt.
    destruct (step_cursor s e s' HI Hstep) as [H|[H|(H & n & reply & c & _ & _ & _ & _ & Hr & Hr')]];
      [lia|lia|].
    split; [done|]. split; [done|]. eexists. split; [done|]. apply settled_row_terminal.
Qed.

Lemma one_row_in_flight_witness :
  processing_count (results demo_running) ≤ 1 ∧
  ∃ s', step demo_running (Settled 0 demo_keywords) = Some s' ∧
    currentIndex s' = S (currentIndex demo_running) ∧
    (∃ r, results demo_running !! currentIndex demo_running = Some r
          ∧ ResultRow.status r = Processing) ∧
    (∃ r', results s' !! currentIndex demo_running = Some r' ∧ is_terminal r' = true).
Proof.
  assert (reachable demo_running) as Hreach
    by (exists demo_start; vm_compute; reflexivity).
  destruct (one_row_in_flight demo_running Hreach) as [H1 H2].
  split; [exact H1|].
  eexists. split; [vm_compute; reflexivity|].
  eapply (H2 (Settled 0 demo_keywords)).
  - vm_compute. reflexivity.
  - simpl. lia.
Defined.

(** The responses on which [generateKeywordsFromApi] throws: the
    request is rejected or the text does not parse, with the value
    thrown there, or the parsed result is falsy or has no truthy
    [keywords], with the [Error] of the function. *)
Lemma generateKeywordsFromApi_throws (resp : Untyped.Response) (err : Thrown) :
  Untyped.generateKeywordsFromApi resp = inl err ↔
  resp = Untyped.Throws err ∨
  ∃ result, resp = Untyped.Returns result ∧
    err = ThrownError "Could not parse keywords from the response." ∧
    (Untyped.is_truthy result = false ∨
     Untyped.keywords_property result = None ∨
     ∃ keywords, Untyped.keywords_property result = Some keywords ∧
                 Untyped.is_truthy keywords = false).
Proof.
  destruct resp as [err'|result]; cbn [Untyped.generateKeywordsFromApi].
  - split; [intros [= ->]; by left|]. intros [[= ->]|(? & [=] & _)]. done.
  - split.
    + intros H. right. exists result. split; [done|].
      destruct (Untyped.is_truthy result); [|injection H as <-; split; [done|by left]].
      destruct (Untyped.keywords_property result) as [keywords|];
        [|injection H as <-; split; [done|right; by left]].
      destruct (Untyped.is_truthy keywords) eqn:Hk; [done|].
      injection H as <-. split; [done|]. right. right. by exists keywords.
    + intros [[=]|(result' & [= <-] & -> & H)].
      destruct (Untyped.is_truthy result); [|done].
      destruct H as [[=]|[->|(keywords & -> & ->)]]; done.
Qed.

(** On the responses that have one, the [ApiReply] gives the row that
    [processRow] writes. *)
Lemma typed_reply_row (resp : Untyped.Response) (reply : ApiReply) :
  Untyped.typed_reply resp = Some reply →
  Untyped.typed_row (Untyped.processRow resp) = Some (settled_row reply).
Proof.
  unfold Untyped.processRow, Untyped.typed_row.
  destruct resp as [err|result];
    cbn [Untyped.typed_reply Untyped.generateKeywordsFromApi].
  - intros [= <-]. by destruct err.
  - destruct (Untyped.is_truthy result); [|by intros [= <-]].
    destruct (Untyped.keywords_property result) as [keywords|]; [|by intros [= <-]].
    destruct (Untyped.is_truthy keywords); [|by intros [= <-]].
    cbn [Untyped.w_keywords Untyped.w_status Untyped.w_error].
    destruct (Untyped.strings_of keywords) as [kws|]; [|done]. by intros [= <-].
Qed.

(** A response on which the function throws has an [ApiReply], whose
    row is the [Error] row with the message read off the value thrown. *)
Lemma thrown_reply (resp : Untyped.Response) (err : Thrown) :
  Untyped.generateKeywordsFromApi resp = inl err →
  ∃ reply, Untyped.typed_reply resp = Some reply ∧
    settled_row reply = ResultRow.mk Error [] (Some (Untyped.errorMessage err)).
Proof.
  destruct resp as [err'|result];
    cbn [Untyped.typed_reply Untyped.generateKeywordsFromApi].
  - intros [= ->]. eexists. split; [done|]. by destruct err.
  - destruct (Untyped.is_truthy result); [|intros [= <-]; by eexists].
    destruct (Untyped.keywords_property result) as [keywords|]; [|intros [= <-]; by eexists].
    destruct (Untyped.is_truthy keywords); [done|]. intros [= <-]. by eexists.
Qed.

(** C5, as the code has it.  When the call of the row in flight throws
    (the request is rejected, the response text does not parse, or the
    parsed result is falsy or has no truthy [keywords]), the outcome of
    that row becomes [Error] with the message of the [Error] thrown, be
    it empty, or with the message Unknown error when the value thrown
    is not an [Error]; the cursor moves past the row, and the run goes
    on: the next row is being processed, or the run is [Done] when that
    row was the last one.  A truthy [keywords] of any kind is not
    checked: [processRow] writes it as it is in a [Completed] row. *)
Theorem failed_row_is_isolated (s : State) (n : nat) (c : Call) (resp : Untyped.Response) :
  reachable s →
  calls s !! n = Some c → isCancelled c = false →
  (∀ err, Untyped.generateKeywordsFromApi resp = inl err →
     ∃ reply s', Untyped.typed_reply resp = Some reply ∧
       step s (Settled n reply) = Some s' ∧
       call_index c = currentIndex s ∧
       results s' !! currentIndex s
         = Some (ResultRow.mk Error [] (Some (Untyped.errorMessage err))) ∧
       currentIndex s' = S (currentIndex s) ∧
       ((S (currentIndex s) < length (rows (csvData s)) ∧ status s' = Running ∧
         ∃ r, results s' !! S (currentIndex s) = Some r ∧ ResultRow.status r = Processing)
        ∨ (S (currentIndex s) = length (rows (csvData s)) ∧ status s' = Done))) ∧
  (∀ result keywords,
     resp = Untyped.Returns result →
     Untyped.is_truthy result = true →
     Untyped.keywords_property result = Some keywords →
     Untyped.is_truthy keywords = true →
     Untyped.processRow resp = Untyped.mkWritten Completed keywords None).
Proof.
  intros HI%reachable_inv Hc Hcan. split.
  - intros err (reply & Hreply & Hrow)%thrown_reply.
    destruct (step_inv s (Settled n reply) HI) as (s' & Hstep & _).
    exists reply, s'. split; [done|]. split; [done|].
    destruct (inv_active s HI c) as (Hidx & Hst & r & Hr & Hp);
      [by eapply list_elem_of_lookup_2|done|].
    split; [done|].
    simpl in Hstep. rewrite Hc in Hstep. unfold settle in Hstep. rewrite Hcan in Hstep.
    unfold array_set in Hstep. simpl in Hstep.
    destruct (decide (call_index c < length (results s))) as [Hlt|]; [|done].
    pose proof (run_effect_frame _ _ Hstep) as (Hcur & Hcsv & _ & _ & _ & _ & Hres).
    simpl in Hcur, Hcsv, Hres.
    split; [|split; [done|]].
    + rewrite Hres by lia. rewrite <- Hidx. rewrite list_lookup_insert_eq by done.
      by rewrite Hrow.
    + apply run_effect_running in Hstep; [|done]. simpl in Hstep.
      destruct Hstep as [(Hlt' & Hst' & Hr' & _)|(Hle & Hst' & _)].
      * left. done.
      * right. split; [|done]. apply lookup_lt_Some in Hr.
        rewrite (inv_length s HI) in Hr. lia.
  - intros result keywords -> Ht Hk Hkt. unfold Untyped.processRow.
    cbn [Untyped.generateKeywordsFromApi]. by rewrite Ht, Hk, Hkt.
Qed.

Lemma failed_row_is_isolated_witness :
  (∃ s', step demo_running (Settled 0 demo_rate_limited) = Some s' ∧
     results s' !! 0 = Some (ResultRow.mk Error [] (Some "rate limited")) ∧
     currentIndex s' = 1 ∧ status s' = Running) ∧
  Untyped.processRow demo_keywords_string
  = Untyped.mkWritten Completed (Untyped.JString "abc") None.
Proof.
  assert (reachable demo_running) as Hreach
    by (exists demo_start; vm_compute; reflexivity).
  split.
  - destruct (failed_row_is_isolated demo_running 0
                (mkCall 0 [("fileName", "doc1.csv"); ("title", "Annual Report");
                           ("content", "Revenue grew")] false)
                demo_rejected Hreach) as [Hthrows _]; [reflexivity|reflexivity|].
    destruct (Hthrows (ThrownError "rate limited"))
      as (reply & s' & Hreply & Hstep & _ & Hrow & Hcur & Hnext); [reflexivity|].
    injection Hreply as <-.
    exists s'. split; [exact Hstep|]. split; [exact Hrow|]. split; [exact Hcur|].
    destruct Hnext as [(_ & Hst & _)|(Hlast & _)]; [exact Hst|].
    vm_compute in Hlast. discriminate Hlast.
  - destruct (failed_row_is_isolated demo_running 0
                (mkCall 0 [("fileName", "doc1.csv"); ("title", "Annual Report");
                           ("content", "Revenue grew")] false)
                demo_keywords_string Hreach) as [_ Hkept]; [reflexivity|reflexivity|].
    apply (Hkept (Untyped.JObject [("keywords", Untyped.JString "abc")])); reflexivity.
Defined.

(** C5 as stated fails twice.  For a response whose
    [keywords] is a string, which is no [ApiReply], the row written is
    [Completed] and holds the string; and for a thrown [Error] whose
    message is empty the row holds the empty message, not the message
    Unknown error. *)
Theorem malformed_keywords_completed :
  Untyped.processRow demo_keywords_string
  = Untyped.mkWritten Completed (Untyped.JString "abc") None ∧
  Untyped.typed_reply demo_keywords_string = None ∧
  Untyped.processRow demo_empty_error
  = Untyped.mkWritten Error (Untyped.JArray []) (Some "") ∧
  settled_row (Rejects (ThrownError "")) = ResultRow.mk Error [] (Some "").
Proof. repeat split; reflexivity. Qed.

(** *** A whole run *)

Lemma split_on_not_nil is_sep s : split_on is_sep s ≠ [].
Proof.
  destruct s as [|c s]; simpl; [done|].
  destruct (is_sep c s); [done|]. by destruct (split_on is_sep s).
Qed.

(** A table with a data row has a header. *)
Lemma parseCSV_headers text : rows (parseCSV text) ≠ [] → headers (parseCSV text) ≠ [].
Proof.
  unfold parseCSV. destruct (lines_of text) as [|first [|l rest]]; simpl; try done.
  intros _ H. apply fmap_nil_inv in H. by apply split_on_not_nil in H.
Qed.

Lemma load_valid_file f :
  file_type f = "text/csv" → rows (parseCSV (file_text f)) ≠ [] →
  run [SelectFile f; FileLoaded 0] initial = Some (loaded f).
Proof.
  intros Hty Hrows. pose proof (parseCSV_headers _ Hrows) as Hhs.
  simpl. unfold handleFileChange. rewrite Hty. simpl. unfold onload. simpl.
  destruct (rows (parseCSV (file_text f))) eqn:Er; [done|].
  destruct (headers (parseCSV (file_text f))) eqn:Eh; [done|].
  simpl. unfold loaded. rewrite Er. reflexivity.
Qed.

Lemma insert_middle {A} (l1 l2 : list A) (x y : A) :
  <[length l1 := y]> (l1 ++ x :: l2) = l1 ++ y :: l2.
Proof. rewrite <- (Nat.add_0_r (length l1)). by rewrite insert_app_r. Qed.

(** The run from a row in flight to the end, one reply per row left. *)
Lemma run_to_end replies : ∀ s finished cur c,
  status s = Running →
  calls s = [c] → isCancelled c = false → call_index c = currentIndex s →
  results s = finished ++ cur :: replicate (pred (length replies)) pending_row →
  length finished = currentIndex s →
  length (rows (csvData s)) = length (results s) →
  replies ≠ [] →
  ∃ s', run (map (Settled 0) replies) s = Some s' ∧
    results s' = finished ++ map settled_row replies ∧
    currentIndex s' = length (results s) ∧ status s' = Done ∧ csvData s' = csvData s.
Proof.
  induction replies as [|reply replies IH]; intros s finished cur c Hst Hcalls Hcan Hidx Hres
    Hfin Hrows Hne; [done|].
  destruct s as [f d res st k err cs rd]. destruct c as [ci crow ccan].
  simpl in Hst, Hcalls, Hcan, Hidx, Hres, Hfin, Hrows. subst st cs ccan ci k res.
  cbn [map run step calls lookup list_lookup delete list_delete].
  unfold settle. cbn [isCancelled set_calls results call_index file csvData status
                      currentIndex error calls reads].
  unfold array_set.
  rewrite decide_True by (rewrite length_app; simpl; lia).
  rewrite (insert_middle finished).
  rewrite length_app in Hrows. cbn [length pred] in Hrows. rewrite length_replicate in Hrows.
  cbn [results length pred].
  destruct replies as [|reply' replies].
  - (* the last row *)
    unfold run_effect. cbn [status csvData currentIndex calls map].
    rewrite lookup_ge_None_2 by (simpl in Hrows; lia).
    eexists. split; [reflexivity|]. cbn. rewrite length_app. simpl.
    repeat split; try done. lia.
  - (* another row follows *)
    destruct (lookup_lt_is_Some_2 (rows d) (S (length finished))) as [row Hrow];
      [simpl in Hrows; lia|].
    unfold run_effect. cbn [status csvData currentIndex calls map results file error reads].
    rewrite Hrow. cbn [length replicate].
    rewrite (cons_middle (settled_row reply)), app_assoc.
    replace (S (length finished)) with (length (finished ++ [settled_row reply]))
      by (rewrite length_app; simpl; lia).
    rewrite list_lookup_middle by done.
    rewrite insert_middle.
    match goal with |- context [run _ ?st] =>
      edestruct (IH st (finished ++ [settled_row reply]) (ResultRow.mk Processing [] None))
        as (s' & Hrun & Hres' & Hcur' & Hst' & Hcsv');
        [reflexivity|reflexivity|reflexivity|reflexivity|reflexivity|reflexivity| |done|]
    end.
    + cbn [csvData results]. rewrite Hrows, !length_app. simpl.
      rewrite length_replicate. lia.
    + cbn [map] in Hrun. rewrite Hrun.
      eexists; split; [reflexivity|].
      cbn [results csvData] in Hres', Hcur', Hcsv'. repeat split; try done.
      * rewrite Hres', <- app_assoc. reflexivity.
      * rewrite Hcur', !length_app. simpl. rewrite length_replicate. lia.
Qed.

Lemma start_loaded f row rest :
  rows (parseCSV (file_text f)) = row :: rest →
  step (loaded f) Toggle
  = Some (mkState (Some f) (parseCSV (file_text f))
                  (ResultRow.mk Processing [] None :: replicate (length rest) pending_row)
                  Running 0 None [mkCall 0 row false] []).
Proof.
  intros Hrows. cbn [step]. unfold toggleProcessing, loaded, run_effect.
  cbn [status csvData currentIndex results calls file error reads map app].
  rewrite Hrows. reflexivity.
Qed.

(** C1.  For a valid table with R data rows ([parseCSV] finds at least
    one), loaded from a CSV file, a run that is started and in which
    the call of each row settles, with no pause and no reset, ends with
    exactly R row outcomes, every one of them terminal ([Completed] or
    [Error]), the cursor at R and the run status [Done]. *)
Theorem full_run_completes (f : File) (replies : list ApiReply) :
  file_type f = "text/csv" →
  rows (parseCSV (file_text f)) ≠ [] →
  length replies = length (rows (parseCSV (file_text f))) →
  ∃ s, run ([SelectFile f; FileLoaded 0; Toggle] ++ map (Settled 0) replies) initial = Some s ∧
    length (results s) = length (rows (parseCSV (file_text f))) ∧
    Forall (λ r, is_terminal r = true) (results s) ∧
    currentIndex s = length (rows (parseCSV (file_text f))) ∧
    status s = Done.
Proof.
  intros Hty Hrows Hlen.
  change ([SelectFile f; FileLoaded 0; Toggle] ++ map (Settled 0) replies)
    with ([SelectFile f; FileLoaded 0] ++ Toggle :: map (Settled 0) replies).
  rewrite run_app, (load_valid_file f Hty Hrows). cbn [mbind option_bind run].
  destruct (rows (parseCSV (file_text f))) as [|row rest] eqn:Er; [done|].
  rewrite (start_loaded f row rest Er).
  edestruct (run_to_end replies) as (s' & Hrun & Hres & Hcur & Hst & _);
    [ | | | | | | | |exists s'; split; [exact Hrun|] ].
  - reflexivity.
  - reflexivity.
  - reflexivity.
  - reflexivity.
  - cbn [results]. rewrite Hlen. cbn [length pred]. rewrite app_nil_l. reflexivity.
  - reflexivity.
  - cbn [csvData results length]. rewrite Er, length_replicate. reflexivity.
  - intros ->. done.
  - cbn [results length] in Hres, Hcur. rewrite length_replicate in Hcur.
    rewrite app_nil_l in Hres. rewrite Hres, length_map, Hlen.
    repeat split; try done.
    apply Forall_forall. intros r Hr. apply list_elem_of_fmap in Hr as (reply & -> & _).
    apply settled_row_terminal.
Qed.

Lemma full_run_completes_witness :
  ∃ s, run ([SelectFile demo_file; FileLoaded 0; Toggle]
            ++ map (Settled 0) [demo_keywords; demo_rate_limited]) initial = Some s ∧
    length (results s) = 2 ∧ Forall (λ r, is_terminal r = true) (results s) ∧
    currentIndex s = 2 ∧ status s = Done.
Proof.
  apply (full_run_completes demo_file [demo_keywords; demo_rate_limited]).
  - reflexivity.
  - vm_compute. discriminate.
  - vm_compute. reflexivity.
Defined.

(** *** Pausing *)

Lemma loaded_shape f : run_shape (loaded f).
Proof.
  unfold run_shape, loaded. cbn [results currentIndex]. repeat split.
  - intros i r Hi. lia.
  - intros i r _ [-> _]%lookup_replicate. done.
  - intros r [-> _]%lookup_replicate. by left.
Qed.

(** Starting, pausing and settling calls keep the shape of a run and
    leave the table alone. *)
Lemma step_shape s e s' :
  Inv s → run_shape s → run_event e → step s e = Some s' →
  run_shape s' ∧ csvData s' = csvData s ∧ length (results s') = length (results s).
Proof.
  intros HI (Hdone & Htodo & Hcur) He Hstep.
  destruct e as [| | | |n reply]; try done; cbn [step] in Hstep.
  - (* Toggle *)
    unfold toggleProcessing in Hstep.
    pose proof (run_effect_frame _ _ Hstep) as (Hk & Hd & _ & _ & _ & Hl & Hres).
    cbn [currentIndex csvData results] in Hk, Hd, Hl, Hres.
    split; [|done]. unfold run_shape. rewrite Hk. repeat split.
    + intros i r Hi. rewrite Hres by lia. eauto.
    + intros i r Hi. rewrite Hres by lia. eauto.
    + intros r Hr. destruct (status s) eqn:Hst.
      all: try (apply run_effect_running in Hstep; [|done];
                cbn [currentIndex csvData results] in Hstep;
                destruct Hstep as [(_ & _ & (r' & Hr' & Hp) & _)|(_ & _ & Hsame & _)];
                [ right; apply is_processing_spec; congruence
                | rewrite Hsame in Hr; eauto ]).
      apply run_effect_not_running in Hstep; [|done].
      destruct Hstep as (_ & Hsame & _). cbn [results] in Hsame.
      rewrite Hsame in Hr. eauto.
  - (* Settled *)
    destruct (calls s !! n) as [c|] eqn:Hc; [|by injection Hstep as <-].
    unfold settle in Hstep. destruct (isCancelled c) eqn:Hcan; [by injection Hstep as <-|].
    destruct (inv_active s HI c) as (Hidx & Hst & r & Hr & Hp);
      [by eapply list_elem_of_lookup_2|done|].
    unfold array_set in Hstep. cbn [set_calls results] in Hstep.
    destruct (decide _) as [Hlt|]; [|done].
    cbn [set_calls file csvData status currentIndex error calls reads] in Hstep.
    pose proof (run_effect_frame _ _ Hstep) as (Hk & Hd & _ & _ & _ & Hl & Hres).
    cbn [currentIndex csvData results] in Hk, Hd, Hl, Hres.
    rewrite length_insert in Hl. split; [|done].
    unfold run_shape. rewrite Hk. repeat split.
    + intros i r0 Hi. rewrite Hres by lia. rewrite Hidx.
      destruct (decide (i = currentIndex s)) as [->|Hne].
      * rewrite list_lookup_insert_eq by (by eapply lookup_lt_Some).
        intros [= <-]. apply settled_row_terminal.
      * rewrite list_lookup_insert_ne by done. apply Hdone. lia.
    + intros i r0 Hi. rewrite Hres by lia. rewrite Hidx.
      rewrite list_lookup_insert_ne by lia. apply Htodo. lia.
    + intros r0 Hr0.
      apply run_effect_running in Hstep; [|done].
      cbn [currentIndex csvData results] in Hstep.
      destruct Hstep as [(_ & _ & (r' & Hr' & Hp') & _)|(_ & _ & Hsame & _)].
      * right. apply is_processing_spec. congruence.
      * rewrite Hsame, Hidx in Hr0. rewrite list_lookup_insert_ne in Hr0 by lia.
        left. eapply Htodo; [|done]. lia.
Qed.

Lemma run_shape_events evs : ∀ s s',
  Inv s → run_shape s → Forall run_event evs → run evs s = Some s' →
  Inv s' ∧ run_shape s' ∧ csvData s' = csvData s ∧ length (results s') = length (results s).
Proof.
  induction evs as [|e evs IH]; intros s s' HI Hsh Hevs Hrun; cbn [run] in Hrun.
  - by injection Hrun as <-.
  - apply Forall_cons in Hevs as [He Hevs].
    destruct (step_inv s e HI) as (s1 & Hstep & HI1). rewrite Hstep in Hrun.
    destruct (step_shape s e s1 HI Hsh He Hstep) as (Hsh1 & Hd1 & Hl1).
    destruct (IH s1 s' HI1 Hsh1 Hevs Hrun) as (? & ? & ? & ?).
    split; [done|]. split; [done|]. split; congruence.
Qed.

(** Pausing raises the cancellation flag of every awaited call and
    touches neither the outcomes nor the cursor. *)
Lemma pause_cancels s :
  status s = Running →
  ∃ sp, step s Toggle = Some sp ∧ status sp = Paused ∧ results sp = results s ∧
    currentIndex sp = currentIndex s ∧ csvData sp = csvData s ∧ all_cancelled sp.
Proof.
  intros Hst. cbn [step]. unfold toggleProcessing, run_effect. rewrite Hst.
  cbn [status]. eexists. split; [reflexivity|]. cbn. repeat split.
  intros c Hc. by apply elem_of_map_cancel in Hc.
Qed.

(** A call that settles after its cancellation changes no state
    variable. *)
Lemma late_arrival_discarded s n reply :
  all_cancelled s →
  ∃ s', step s (Settled n reply) = Some s' ∧ react_state s' = react_state s ∧ all_cancelled s'.
Proof.
  intros Hall. cbn [step]. destruct (calls s !! n) as [c|] eqn:Hc; [|by exists s].
  unfold settle. rewrite (Hall c) by (by eapply list_elem_of_lookup_2).
  eexists. split; [reflexivity|]. split; [reflexivity|].
  intros c' Hc'. cbn [calls set_calls] in Hc'. apply elem_of_delete in Hc'. by apply Hall.
Qed.

Lemma late_arrivals_discarded late : ∀ s,
  all_cancelled s →
  ∃ s', run (arrivals late) s = Some s' ∧ react_state s' = react_state s.
Proof.
  induction late as [|[n reply] late IH]; intros s Hall; cbn [arrivals map run fst snd].
  - by exists s.
  - destruct (late_arrival_discarded s n reply Hall) as (s1 & -> & Hsame & Hall1).
    destruct (IH s1 Hall1) as (s' & Hrun & Hsame'). exists s'. split; [done|congruence].
Qed.

Lemma loaded_inv f :
  file_type f = "text/csv" → rows (parseCSV (file_text f)) ≠ [] → Inv (loaded f).
Proof.
  intros Hty Hrows.
  destruct (run_inv [SelectFile f; FileLoaded 0] initial initial_inv) as (s & Hrun & HI).
  rewrite (load_valid_file f Hty Hrows) in Hrun. by injection Hrun as <-.
Qed.

(** C2.  Take a valid table of R rows and any run on it (starts,
    pauses, resumes, calls that settle) that has the cursor at k with
    the run underway.  When the run is paused there and not resumed, a
    call that settles afterwards changes no state variable: no outcome
    is written and the cursor stays at k.  The outcomes before k are
    terminal, the outcome at k is [Processing] or terminal, and the
    outcomes after k are [Pending]. *)
Theorem pause_freezes_run (f : File) (evs : list Event) (late : list (nat * ApiReply))
    (s : State) :
  file_type f = "text/csv" →
  rows (parseCSV (file_text f)) ≠ [] →
  Forall run_event evs →
  run ([SelectFile f; FileLoaded 0] ++ evs) initial = Some s →
  status s = Running →
  ∃ sp s', step s Toggle = Some sp ∧ status sp = Paused ∧
    run (arrivals late) sp = Some s' ∧
    react_state s' = react_state sp ∧
    currentIndex s' = currentIndex s ∧
    length (results s') = length (rows (parseCSV (file_text f))) ∧
    (∀ i r, i < currentIndex s → results s' !! i = Some r → is_terminal r = true) ∧
    (∃ r, results s' !! currentIndex s = Some r ∧
          (is_processing r = true ∨ is_terminal r = true)) ∧
    (∀ i r, currentIndex s < i → results s' !! i = Some r → is_pending r = true).
Proof.
  intros Hty Hrows Hevs Hrun Hst.
  rewrite run_app, (load_valid_file f Hty Hrows) in Hrun. cbn [mbind option_bind] in Hrun.
  destruct (run_shape_events evs (loaded f) s (loaded_inv f Hty Hrows) (loaded_shape f)
              Hevs Hrun) as (HI & (Hdone & Htodo & _) & Hd & Hl).
  destruct (pause_cancels s Hst) as (sp & Hstep & Hpaused & Hres & Hk & _ & Hall).
  destruct (late_arrivals_discarded late sp Hall) as (s' & Hlate & Hsame).
  exists sp, s'. split; [done|]. split; [done|]. split; [done|]. split; [done|].
  unfold react_state in Hsame. injection Hsame as _ _ Hres' _ Hk' _.
  rewrite Hres', Hk', Hres, Hk. split; [done|]. split.
  { rewrite Hl. unfold loaded. cbn [results]. by rewrite length_replicate. }
  split; [done|]. split; [|done].
  destruct (inv_running s HI Hst) as (r & Hr & Hp). exists r. split; [done|].
  left. by apply is_processing_spec.
Qed.

Lemma pause_freezes_run_witness :
  ∃ sp s', step demo_running Toggle = Some sp ∧ status sp = Paused ∧
    run (arrivals [(0, demo_keywords)]) sp = Some s' ∧
    react_state s' = react_state sp ∧
    currentIndex s' = 0 ∧ length (results s') = 2 ∧
    (∃ r, results s' !! 0 = Some r ∧ (is_processing r = true ∨ is_terminal r = true)) ∧
    (∀ i r, 0 < i → results s' !! i = Some r → is_pending r = true).
Proof.
  destruct (pause_freezes_run demo_file [Toggle] [(0, demo_keywords)] demo_running)
    as (sp & s' & H1 & H2 & H3 & H4 & H5 & H6 & _ & H8 & H9).
  - reflexivity.
  - vm_compute. discriminate.
  - repeat constructor.
  - vm_compute. reflexivity.
  - reflexivity.
  - exists sp, s'. repeat split; assumption.
Defined.

(** ** The deduplicated keyword view *)

Lemma includes_spec xs x : includes xs x = true ↔ x ∈ xs.
Proof.
  unfold includes. rewrite existsb_exists. split.
  - intros (y & Hy & ->%String.eqb_eq). by apply list_elem_of_In.
  - intros H. exists x. split; [by apply list_elem_of_In|apply String.eqb_refl].
Qed.

Lemma elem_of_Set_add acc y x : x ∈ Set_add acc y ↔ x ∈ acc ∨ x = y.
Proof.
  unfold Set_add. destruct (includes acc y) eqn:E.
  - apply includes_spec in E. split; [by left|]. intros [H| ->]; done.
  - rewrite elem_of_app, list_elem_of_singleton. done.
Qed.

Lemma NoDup_Set_add acc y : NoDup acc → NoDup (Set_add acc y).
Proof.
  intros Hnd. unfold Set_add. destruct (includes acc y) eqn:E; [done|].
  apply NoDup_app. split; [done|]. split; [|apply NoDup_singleton].
  intros x Hx ->%list_elem_of_singleton.
  apply includes_spec in Hx. congruence.
Qed.

Lemma fold_Set_add xs : ∀ acc,
  NoDup acc →
  NoDup (fold_left Set_add xs acc) ∧
  ∀ x, x ∈ fold_left Set_add xs acc ↔ x ∈ acc ∨ x ∈ xs.
Proof.
  induction xs as [|y xs IH]; intros acc Hnd; simpl.
  - split; [done|]. intros x. rewrite elem_of_nil. tauto.
  - destruct (IH (Set_add acc y) (NoDup_Set_add acc y Hnd)) as [Hnd' Hin].
    split; [done|]. intros x. rewrite Hin, elem_of_Set_add, elem_of_cons. tauto.
Qed.

Lemma is_completed_spec r : is_completed r = true ↔ ResultRow.status r = Completed.
Proof. unfold is_completed. destruct (ResultRow.status r); split; done. Qed.

(** C6.  In every state, the deduplicated keyword view holds each of
    its keywords once, and a string belongs to it exactly when it is a
    keyword of some [Completed] outcome. *)
Theorem allKeywords_exact (s : State) :
  NoDup (allKeywords (results s)) ∧
  ∀ kw, kw ∈ allKeywords (results s) ↔
        ∃ r, r ∈ results s ∧ ResultRow.status r = Completed ∧ kw ∈ ResultRow.keywords r.
Proof.
  unfold allKeywords, Array_from_Set.
  match goal with |- context [fold_left Set_add ?xs []] =>
    destruct (fold_Set_add xs [] (NoDup_nil_2 (A:=string))) as [Hnd Hin]
  end.
  split; [done|]. intros kw. rewrite Hin, elem_of_nil.
  rewrite list_elem_of_In, in_flat_map. split.
  - intros [[]|(r & Hr & Hkw)]. apply filter_In in Hr as [Hr Hc].
    apply andb_true_iff in Hc as [Hc _]. exists r.
    rewrite is_completed_spec in Hc. by rewrite !list_elem_of_In.
  - intros (r & Hr & Hc & Hkw). right. exists r. rewrite filter_In.
    split; [|by apply list_elem_of_In]. split; [by apply list_elem_of_In|].
    apply andb_true_iff. split; [by apply is_completed_spec|].
    apply Nat.ltb_lt. destruct (ResultRow.keywords r); [by apply elem_of_nil in Hkw|simpl; lia].
Qed.

(** ** Uploads *)

(** C9.  When a CSV file is selected and its text parses to an empty
    result (no data row or no header), the file becomes the selected
    file as soon as it is chosen, and the load that follows changes
    neither the loaded records and headers nor the outcomes: it only
    sets the error message. *)
Theorem failed_upload_keeps_table (s : State) (f : File) :
  file_type f = "text/csv" →
  rows (parseCSV (file_text f)) = [] ∨ headers (parseCSV (file_text f)) = [] →
  ∃ s1 s2, step s (SelectFile f) = Some s1 ∧ file s1 = Some f ∧
    step s1 (FileLoaded (length (reads s))) = Some s2 ∧
    file s2 = Some f ∧ csvData s2 = csvData s ∧ results s2 = results s ∧
    status s2 = status s ∧ currentIndex s2 = currentIndex s ∧
    error s2 = Some "CSV is empty or invalid.".
Proof.
  intros Hty Hempty. cbn [step]. unfold handleFileChange. rewrite Hty, String.eqb_refl.
  eexists. eexists. split; [reflexivity|]. split; [reflexivity|].
  cbn [reads]. rewrite list_lookup_middle by done.
  unfold onload.
  assert ((length (rows (parseCSV (file_text f))) =? 0)
          || (length (headers (parseCSV (file_text f))) =? 0) = true) as ->.
  { destruct Hempty as [-> | ->]; [done|]. simpl. apply orb_true_r. }
  split; [reflexivity|]. done.
Qed.

Lemma failed_upload_keeps_table_witness :
  ∃ s1 s2, step demo_running (SelectFile (mkFile "empty.csv" "text/csv" "fileName,title"))
           = Some s1 ∧ file s1 = Some (mkFile "empty.csv" "text/csv" "fileName,title") ∧
    step s1 (FileLoaded 0) = Some s2 ∧
    file s2 = Some (mkFile "empty.csv" "text/csv" "fileName,title") ∧
    csvData s2 = csvData demo_running ∧ results s2 = results demo_running ∧
    status s2 = status demo_running ∧ currentIndex s2 = currentIndex demo_running ∧
    error s2 = Some "CSV is empty or invalid.".
Proof.
  apply (failed_upload_keeps_table demo_running
           (mkFile "empty.csv" "text/csv" "fileName,title")).
  - reflexivity.
  - left. vm_compute. reflexivity.
Defined.

(** ** The request *)

Lemma filter_define_property (P : string * string → bool) k v row :
  (∀ w, P (k, w) = false) →
  List.filter P (define_property k v row) = List.filter P row.
Proof.
  intros HP. induction row as [|[k0 v0] row IH]; simpl.
  - by rewrite HP.
  - destruct (String.eqb k0 k) eqn:E; simpl.
    + apply String.eqb_eq in E as ->. by rewrite !HP.
    + rewrite IH. done.
Qed.

Lemma filter_filter_andb {A} (P1 P2 : A → bool) l :
  List.filter P2 (List.filter P1 l) = List.filter (fun x => P1 x && P2 x) l.
Proof.
  induction l as [|x l IH]; simpl; [done|].
  destruct (P1 x); simpl; [destruct (P2 x)|]; by rewrite IH.
Qed.

(** A digit is its own lower case, and it is neither of the letters
    that start the names title and content. *)
Lemma lower_char_not_digit c :
  lower_char c = "t"%char ∨ lower_char c = "c"%char →
  digit_value c = None ∧ Ascii.eqb c "0"%char = false.
Proof.
  destruct c as [[] [] [] [] [] [] [] []]; vm_compute; intros [H|H]; try discriminate H;
    split; reflexivity.
Qed.

Lemma title_content_not_index key :
  toLowerCase key = "title" ∨ toLowerCase key = "content" → array_index key = None.
Proof.
  intros H. destruct key as [|c rest]; [done|].
  assert (lower_char c = "t"%char ∨ lower_char c = "c"%char) as Hc.
  { destruct H as [H|H]; simpl in H; injection H as H _; [left|right]; exact H. }
  apply lower_char_not_digit in Hc as [Hd H0].
  unfold array_index. rewrite H0. cbn [digits_value]. by rewrite Hd.
Qed.

Lemma attributes_define_property key v row :
  includes RESERVED_KEYS (toLowerCase key) = true →
  array_index key = None →
  attributes (define_property key v row) = attributes row.
Proof.
  intros Hres Hidx. unfold attributes, Object_entries. f_equal.
  rewrite !List.filter_app. f_equal.
  - f_equal. f_equal. apply filter_define_property.
    intros w. unfold is_array_index. cbn [fst]. by rewrite Hidx.
  - rewrite !filter_filter_andb. apply filter_define_property.
    intros w. unfold is_attribute. cbn [fst snd]. rewrite Hres. apply andb_false_r.
Qed.

Lemma own_or_empty_row_set name key v row :
  key ≠ name → own_or_empty name (row_set key v row) = own_or_empty name row.
Proof. intros Hne. unfold own_or_empty, row_get. by rewrite own_row_set_ne. Qed.

(** C10.  The exclusion of reserved fields ignores case while the reads
    of [row.title] and [row.content] do not: when the name of a column
    is a case variant of title or of content (Title, say), its value is
    no attribute of the request and is not the title or the description
    of the prompt either, so that the prompt is the one of the record
    without that column's value. *)
Theorem case_variant_column_dropped (row : CSVRow) (key v : string) :
  case_variant_of "title" key ∨ case_variant_of "content" key →
  (∀ a, a ∈ attributes (row_set key v row) → label a ≠ key) ∧
  title (row_set key v row) = title row ∧
  content (row_set key v row) = content row ∧
  userPrompt (row_set key v row) = userPrompt row.
Proof.
  intros Hkey.
  assert (includes RESERVED_KEYS (toLowerCase key) = true) as Hres.
  { destruct Hkey as [[-> _]|[-> _]]; reflexivity. }
  assert (key ≠ "title" ∧ key ≠ "content") as [Ht Hc].
  { destruct Hkey as [[Hl Hne]|[Hl Hne]]; split; try done; intros ->; discriminate Hl. }
  assert (array_index key = None) as Hidx.
  { apply title_content_not_index. destruct Hkey as [[-> _]|[-> _]]; auto. }
  assert (attributes (row_set key v row) = attributes row) as Hattrs.
  { unfold row_set. destruct (String.eqb key "__proto__"); [done|].
    by apply attributes_define_property. }
  assert (title (row_set key v row) = title row) as Htitle
    by (by apply own_or_empty_row_set).
  assert (content (row_set key v row) = content row) as Hcontent
    by (by apply own_or_empty_row_set).
  split; [|split; [done|split; [done|]]].
  - intros a Ha Hlabel. unfold attributes in Ha.
    apply list_elem_of_fmap in Ha as (kv & -> & Hkv).
    apply list_elem_of_In, filter_In in Hkv as [_ Hkv].
    unfold is_attribute in Hkv.
    apply andb_true_iff in Hkv as [Hkv _]. simpl in Hlabel. rewrite Hlabel, Hres in Hkv.
    discriminate Hkv.
  - unfold userPrompt, attributesText. by rewrite Htitle, Hcontent, Hattrs.
Qed.

Lemma case_variant_column_dropped_witness :
  (∀ a, a ∈ attributes (row_set "Title" "Annual Report"
                           [("fileName", "doc1.csv"); ("Region", "EMEA")]) →
        label a ≠ "Title") ∧
  title (row_set "Title" "Annual Report" [("fileName", "doc1.csv"); ("Region", "EMEA")])
  = title [("fileName", "doc1.csv"); ("Region", "EMEA")] ∧
  content (row_set "Title" "Annual Report" [("fileName", "doc1.csv"); ("Region", "EMEA")])
  = content [("fileName", "doc1.csv"); ("Region", "EMEA")] ∧
  userPrompt (row_set "Title" "Annual Report" [("fileName", "doc1.csv"); ("Region", "EMEA")])
  = userPrompt [("fileName", "doc1.csv"); ("Region", "EMEA")].
Proof.
  apply (case_variant_column_dropped [("fileName", "doc1.csv"); ("Region", "EMEA")]
           "Title" "Annual Report").
  left. split; [reflexivity|discriminate].
Defined.

(** ** The parser on quoted fields *)

Lemma string_app_cons c s t : String c s +:+ t = String c (s +:+ t).
Proof. reflexivity. Qed.

Lemma string_app_nil_l t : "" +:+ t = t.
Proof. reflexivity. Qed.

Lemma string_app_nil_r s : s +:+ "" = s.
Proof. induction s as [|c s IH]; [done|]. by rewrite string_app_cons, IH. Qed.

Lemma string_app_assoc s1 s2 s3 : (s1 +:+ s2) +:+ s3 = s1 +:+ s2 +:+ s3.
Proof. induction s1 as [|c s1 IH]; [done|]. by rewrite !string_app_cons, IH. Qed.

Lemma split_on_sep is_sep f c rest :
  sep_free is_sep f (String c rest) = true → is_sep c rest = true →
  split_on is_sep (f +:+ String c rest) = f :: split_on is_sep rest.
Proof.
  intros Hfree Hsep. induction f as [|x f IH]; rewrite ?string_app_cons, ?string_app_nil_l;
    cbn [split_on].
  - by rewrite Hsep.
  - cbn [sep_free] in Hfree. apply andb_true_iff in Hfree as [Hx Hfree].
    apply negb_true_iff in Hx. rewrite Hx, (IH Hfree). done.
Qed.

Lemma split_on_last is_sep f : sep_free is_sep f "" = true → split_on is_sep f = [f].
Proof.
  induction f as [|x f IH]; cbn [sep_free split_on]; [done|].
  intros [Hx Hfree]%andb_true_iff.
  apply negb_true_iff in Hx. rewrite string_app_nil_r in Hx. rewrite Hx, (IH Hfree). done.
Qed.

Lemma lookahead_from_scan pending s : lookahead_from pending s = negb (scan pending s).
Proof. revert pending. induction s as [|c s IH]; intros pending; simpl; [done|apply IH]. Qed.

Lemma scan_app pending s1 s2 : scan pending (s1 +:+ s2) = scan (scan pending s1) s2.
Proof.
  revert pending. induction s1 as [|c s1 IH]; intros pending; [done|].
  rewrite string_app_cons. cbn [scan]. apply IH.
Qed.

Lemma scan_negb pending s : scan (negb pending) s = negb (scan pending s).
Proof.
  revert pending. induction s as [|c s IH]; intros pending; simpl; [done|].
  destruct (Ascii.eqb c dquote); [|apply IH]. rewrite negb_involutive, <- IH.
  by rewrite negb_involutive.
Qed.

Lemma scan_no_quote pending s : contains dquote s = false → scan pending s = pending.
Proof.
  revert pending. induction s as [|c s IH]; intros pending; simpl; [done|].
  intros [-> Hs]%orb_false_iff. by apply IH.
Qed.

Lemma scan_quoted pending body :
  contains dquote body = false → scan pending (quoted body) = pending.
Proof.
  intros Hbody. unfold quoted, Q. rewrite !scan_app. cbn [scan].
  change (Ascii.eqb dquote dquote) with true. cbv iota.
  rewrite (scan_no_quote _ body Hbody). apply negb_involutive.
Qed.

Lemma scan_simple_field pending f : simple_field f → scan pending f = pending.
Proof.
  intros [[Hq _]|(body & -> & Hbody)]; [by apply scan_no_quote|by apply scan_quoted].
Qed.

Lemma lookahead_matches_cons c s :
  Ascii.eqb c dquote = false → lookahead_matches s → lookahead_matches (String c s).
Proof.
  intros Hc [tail Htail|a b rest Ha Hb Hrest].
  - apply lookahead_tail. cbn [contains]. by rewrite Hc.
  - rewrite <- string_app_cons. apply lookahead_group; [|done|done].
    cbn [contains]. by rewrite Hc.
Qed.

Lemma scan_matches s :
  (scan false s = false → lookahead_matches s) ∧
  (scan true s = false →
   ∃ b rest, s = b +:+ Q +:+ rest ∧ contains dquote b = false ∧ lookahead_matches rest).
Proof.
  induction s as [|c s [IH0 IH1]]; cbn [scan].
  - split; [intros _; by apply lookahead_tail|done].
  - destruct (Ascii.eqb c dquote) eqn:Hc; cbn [negb].
    + apply Ascii.eqb_eq in Hc as ->. split.
      * intros (b & rest & -> & Hb & Hrest)%IH1.
        by apply (lookahead_group "" b rest).
      * intros Hs%IH0. by exists "", s.
    + split.
      * intros Hs%IH0. by apply lookahead_matches_cons.
      * intros (b & rest & -> & Hb & Hrest)%IH1. exists (String c b), rest.
        split; [done|]. split; [|done]. cbn [contains]. by rewrite Hc.
Qed.

(** The scanner accepts exactly the strings that the look-ahead
    expression matches. *)
Lemma lookahead_spec s : lookahead s = true ↔ lookahead_matches s.
Proof.
  unfold lookahead. rewrite lookahead_from_scan, negb_true_iff. split.
  - apply scan_matches.
  - induction 1 as [tail Htail|a b rest Ha Hb _ IH].
    + by apply scan_no_quote.
    + rewrite !scan_app, (scan_no_quote _ a Ha). unfold Q. cbn [scan].
      change (Ascii.eqb dquote dquote) with true. cbv iota. cbn [negb].
      rewrite (scan_no_quote _ b Hb). exact IH.
Qed.

Lemma sep_free_no_comma f tail : contains comma f = false → sep_free is_row_sep f tail = true.
Proof.
  induction f as [|x f IH]; simpl; [done|]. intros [Hx Hf]%orb_false_iff.
  unfold is_row_sep at 1. rewrite Hx. simpl. by apply IH.
Qed.

Lemma sep_free_inside body tail :
  contains dquote body = false → scan false tail = false →
  sep_free is_row_sep (body +:+ Q) tail = true.
Proof.
  intros Hbody Htail. induction body as [|x body IH].
  - reflexivity.
  - cbn [contains] in Hbody. apply orb_false_iff in Hbody as [Hx Hbody].
    rewrite string_app_cons. cbn [sep_free].
    rewrite (IH Hbody), andb_true_r. apply negb_true_iff.
    unfold is_row_sep, lookahead. rewrite lookahead_from_scan.
    rewrite string_app_assoc, !scan_app, (scan_no_quote _ body Hbody).
    unfold Q. cbn [scan]. change (Ascii.eqb dquote dquote) with true. cbv iota.
    rewrite (scan_negb false), Htail. apply andb_false_r.
Qed.

Lemma sep_free_simple_field f tail :
  simple_field f → scan false tail = false → sep_free is_row_sep f tail = true.
Proof.
  intros [[_ Hc]|(body & -> & Hbody)] Htail; [by apply sep_free_no_comma|].
  unfold quoted. unfold Q at 1. rewrite string_app_cons, string_app_nil_l. cbn [sep_free].
  rewrite (sep_free_inside body tail Hbody Htail). reflexivity.
Qed.

(** A line of simple fields splits into exactly those fields. *)
Lemma split_row_join fields :
  fields ≠ [] → Forall simple_field fields →
  split_row (join "," fields) = fields ∧ scan false (join "," fields) = false.
Proof.
  induction fields as [|f fields IH]; [done|]. intros _ Hall.
  apply Forall_cons in Hall as [Hf Hall].
  destruct fields as [|g fields].
  - cbn [join]. split; [|by apply scan_simple_field].
    apply split_on_last. by apply sep_free_simple_field.
  - destruct (IH ltac:(done) Hall) as [Hsplit Hscan].
    change (join "," (f :: g :: fields)) with (f +:+ String comma (join "," (g :: fields))).
    split.
    + unfold split_row. rewrite split_on_sep.
      * f_equal. exact Hsplit.
      * by apply sep_free_simple_field.
      * unfold is_row_sep, lookahead. rewrite lookahead_from_scan, Hscan. reflexivity.
    + rewrite scan_app, (scan_simple_field _ f Hf). exact Hscan.
Qed.

Lemma trimEnd_snoc s c : is_white_space c = false → trimEnd (s +:+ String c "") = s +:+ String c "".
Proof.
  intros Hc. induction s as [|x s IH].
  - rewrite string_app_nil_l. cbn [trimEnd]. by rewrite Hc.
  - rewrite string_app_cons. cbn [trimEnd]. rewrite IH. by destruct s.
Qed.

Lemma trim_quoted body : trim (quoted body) = quoted body.
Proof.
  unfold trim, quoted. unfold Q at 1. rewrite string_app_cons, string_app_nil_l.
  cbn [trimStart]. change (is_white_space dquote) with false. cbv iota.
  rewrite <- string_app_cons. by apply trimEnd_snoc.
Qed.

Lemma endsWith_dquote_snoc s : endsWith_dquote (s +:+ Q) = true.
Proof.
  induction s as [|x s IH]; [done|]. rewrite string_app_cons. cbn [endsWith_dquote].
  destruct (s +:+ Q) eqn:E; [by destruct s|done].
Qed.

Lemma remove_last_snoc s c : remove_last (s +:+ String c "") = s.
Proof.
  induction s as [|x s IH]; [done|]. rewrite string_app_cons. cbn [remove_last].
  rewrite IH. by destruct s.
Qed.

Lemma strip_quotes_quoted body : strip_quotes (quoted body) = body.
Proof.
  unfold strip_quotes.
  assert (quoted body = String dquote (body +:+ Q)) as -> by reflexivity.
  assert (startsWith_dquote (String dquote (body +:+ Q)) = true) as -> by reflexivity.
  rewrite <- string_app_cons, endsWith_dquote_snoc. cbn [andb].
  rewrite string_app_cons. cbn [slice_1_m1]. apply remove_last_snoc.
Qed.

Lemma assign_columns_cons cell i k cols row :
  assign_columns cell ((i, k) :: cols) row = assign_columns cell cols (row_set k (cell i) row).
Proof. reflexivity. Qed.

Lemma assign_columns_untouched cell cols row h :
  h ∉ cols.*2 → own_property h (assign_columns cell cols row) = own_property h row.
Proof.
  revert row. induction cols as [|[i k] cols IH]; intros row Hnot; [done|].
  rewrite assign_columns_cons.
  rewrite IH by (intros H; apply Hnot; by right).
  apply own_row_set_ne. intros ->. apply Hnot. by left.
Qed.

(** The value of a column after the assignment loop: the cell of the
    last column that carries the name. *)
Lemma assign_columns_lookup cell hs : ∀ a j h row,
  hs !! j = Some h → h ≠ "__proto__" → h ∉ drop (S j) hs →
  own_property h (assign_columns cell (combine (seq a (length hs)) hs) row)
  = Some (cell (a + j)).
Proof.
  induction hs as [|h0 hs IH]; intros a j h row Hj Hne Hlast; [done|].
  cbn [length seq combine]. rewrite assign_columns_cons.
  destruct j as [|j].
  - injection Hj as ->. rewrite Nat.add_0_r.
    rewrite assign_columns_untouched by (by rewrite snd_combine_seq).
    by apply own_row_set_eq.
  - rewrite (IH (S a) j h); [f_equal; f_equal; lia|done|done|done].
Qed.

(** C7, as the code has it.  When a data row of the table is made of
    simple fields (free of double quotes, or enclosed in double quotes
    with none inside) and one of them is a double-quoted field whose
    body may contain commas (the value Acme, Inc. in double quotes,
    say), the row splitter keeps that field in one piece, and the
    record of the row maps the header of its column, when that name is
    not __proto__ and is not repeated in a later column, to the body of
    the field, without the surrounding quotes. *)
Theorem quoted_field_single_value (text header : string) (lines : list string) (i : nat)
    (pre post : list string) (body h : string) :
  lines_of text = header :: lines →
  lines !! i = Some (join "," (pre ++ quoted body :: post)) →
  Forall simple_field pre → Forall simple_field post →
  contains dquote body = false →
  headers (parseCSV text) !! length pre = Some h →
  h ≠ "__proto__" →
  h ∉ drop (S (length pre)) (headers (parseCSV text)) →
  split_row (join "," (pre ++ quoted body :: post)) = pre ++ quoted body :: post ∧
  ∃ row, rows (parseCSV text) !! i = Some row ∧ own_property h row = Some body.
Proof.
  intros Hlines Hline Hpre Hpost Hbody Hh Hproto Hlast.
  assert (split_row (join "," (pre ++ quoted body :: post)) = pre ++ quoted body :: post)
    as Hsplit.
  { apply split_row_join; [by destruct pre|].
    apply Forall_app. split; [done|]. apply Forall_cons. split; [|done].
    right. by exists body. }
  split; [done|].
  unfold parseCSV in *. rewrite Hlines in *.
  destruct lines as [|l rest]; [done|]. cbn [headers rows] in *.
  rewrite list_lookup_fmap, Hline. cbn [fmap option_fmap option_map].
  eexists. split; [reflexivity|].
  unfold parse_row.
  rewrite (assign_columns_lookup _ _ 0 (length pre) h) by done.
  f_equal. cbn [Nat.add]. unfold field_at. rewrite Hsplit.
  rewrite list_lookup_middle by done.
  rewrite trim_quoted. apply strip_quotes_quoted.
Qed.

Lemma quoted_field_single_value_witness :
  split_row ("a.pdf," +:+ quoted "Acme, Inc." +:+ ",Annual report")
  = ["a.pdf"; quoted "Acme, Inc."; "Annual report"] ∧
  ∃ row, rows (parseCSV acme_text) !! 0 = Some row ∧
         own_property "company" row = Some "Acme, Inc.".
Proof.
  assert (headers (parseCSV acme_text) = ["fileName"; "company"; "title"]) as Hhs
    by (vm_compute; reflexivity).
  apply (quoted_field_single_value acme_text "fileName,company,title"
           ["a.pdf," +:+ quoted "Acme, Inc." +:+ ",Annual report"] 0
           ["a.pdf"] ["Annual report"] "Acme, Inc." "company").
  - vm_compute. reflexivity.
  - reflexivity.
  - repeat constructor.
  - repeat constructor.
  - reflexivity.
  - rewrite Hhs. reflexivity.
  - discriminate.
  - rewrite Hhs. simpl. rewrite list_elem_of_singleton. discriminate.
Defined.

(** C7 as stated fails on a row with a double quote of its own in
    another field.  The comma of the quoted value is
    followed by two double quotes, so the look-ahead of the splitter
    succeeds there: the value is cut at its comma, and the record
    holds its second half, with the field that follows, under company. *)
Theorem stray_quote_cuts_quoted_field :
  lines_of stray_quote_text
  = ["fileName,company,size"; "a.pdf," +:+ quoted "Acme, Inc." +:+ ",5" +:+ Q +:+ " pipe"] ∧
  split_row ("a.pdf," +:+ quoted "Acme, Inc." +:+ ",5" +:+ Q +:+ " pipe")
  = ["a.pdf," +:+ Q +:+ "Acme"; " Inc." +:+ Q +:+ ",5" +:+ Q +:+ " pipe"] ∧
  rows (parseCSV stray_quote_text)
  = [[("fileName", "a.pdf," +:+ Q +:+ "Acme");
      ("company", "Inc." +:+ Q +:+ ",5" +:+ Q +:+ " pipe");
      ("size", "")]].
Proof. vm_compute. repeat split; reflexivity. Qed.

(** C4, at a table whose header line has a quoted name with a comma in
    it.  The header line is cut at every comma and the quotes stay in
    the names, while the row splitter keeps the same line in three
    fields; the record of the data row then has four columns, and its
    third value sits under a piece of the quoted name instead of under
    title. *)
Theorem header_split_ignores_quotes :
  lines_of quoted_header_text
  = ["fileName," +:+ quoted "company, legal name" +:+ ",title";
     "doc1.csv," +:+ quoted "Acme, Inc." +:+ ",Report"] ∧
  headers (parseCSV quoted_header_text)
  = ["fileName"; Q +:+ "company"; "legal name" +:+ Q; "title"] ∧
  split_row ("fileName," +:+ quoted "company, legal name" +:+ ",title")
  = ["fileName"; quoted "company, legal name"; "title"] ∧
  rows (parseCSV quoted_header_text)
  = [[("fileName", "doc1.csv"); (Q +:+ "company", "Acme, Inc.");
      ("legal name" +:+ Q, "Report"); ("title", "")]].
Proof. vm_compute. repeat split; reflexivity. Qed.

(** ** The export *)

Lemma undouble_double_quotes v : undouble (double_quotes v) = Some v.
Proof.
  induction v as [|c v IH]; [done|]. cbn [double_quotes].
  destruct (Ascii.eqb c dquote) eqn:E.
  - apply Ascii.eqb_eq in E as ->. cbn [undouble].
    change (Ascii.eqb dquote dquote) with true. cbv iota. by rewrite IH.
  - cbn [undouble]. rewrite E. by rewrite IH.
Qed.

(** The cells of the original columns of one record. *)
Lemma original_values_own row hs :
  (∀ h, h ∈ hs → is_Some (own_property h row)) →
  ∃ cells, mapM (original_value row) hs = Some (map quoted cells) ∧
    length cells = length hs ∧
    ∀ j h, hs !! j = Some h →
      ∃ cell v, cells !! j = Some cell ∧ own_property h row = Some v ∧ undouble cell = Some v.
Proof.
  induction hs as [|h0 hs IH]; intros Hown.
  - exists []. repeat split. intros j h Hj. by rewrite lookup_nil in Hj.
  - destruct IH as (cells & Hcells & Hlen & Hcell).
    { intros h Hh. apply Hown. by right. }
    destruct (Hown h0) as [v Hv]; [by left|].
    exists (double_quotes v :: cells). split; [|split].
    + cbn [mapM].
      assert (original_value row h0 = Some (quoted (double_quotes v))) as ->
        by (unfold original_value, row_get; by rewrite Hv).
      rewrite Hcells. reflexivity.
    + simpl. by rewrite Hlen.
    + intros [|j] h Hj.
      * injection Hj as <-. exists (double_quotes v), v.
        split; [done|]. split; [done|]. apply undouble_double_quotes.
      * by apply Hcell.
Qed.

(** C3, as the code has it.  In a reachable state whose table has no
    header named __proto__, the export is built: its first line is the
    header names followed by Keywords and Status, joined by commas as
    they are; and every data line is the join by commas of fields that
    are each enclosed in double quotes, one per header, then the
    keywords and the status cell, where the field of an original column
    reads back, with its doubled double quotes undoubled, as the value
    of the record in that column. *)
Theorem export_data_rows_quoted (s : State) :
  reachable s →
  "__proto__" ∉ headers (csvData s) →
  ∃ lines,
    csvContent s
    = Some (join NL (join "," (headers (csvData s) ++ ["Keywords"; "Status"]) :: lines)) ∧
    length lines = length (rows (csvData s)) ∧
    ∀ i line, lines !! i = Some line →
      ∃ row r cells,
        rows (csvData s) !! i = Some row ∧ results s !! i = Some r ∧
        line = join "," (map quoted (cells ++ [join "; " (ResultRow.keywords r);
                                               status_cell r])) ∧
        length cells = length (headers (csvData s)) ∧
        ∀ j h, headers (csvData s) !! j = Some h →
          ∃ cell v, cells !! j = Some cell ∧ own_property h row = Some v ∧
                    undouble cell = Some v.
Proof.
  intros HI%reachable_inv Hproto.
  assert (∀ i row, rows (csvData s) !! i = Some row →
            ∃ r cells, results s !! i = Some r ∧
              export_row (headers (csvData s)) row (results s !! i)
              = Some (join "," (map quoted (cells ++ [join "; " (ResultRow.keywords r);
                                                      status_cell r]))) ∧
              length cells = length (headers (csvData s)) ∧
              ∀ j h, headers (csvData s) !! j = Some h →
                ∃ cell v, cells !! j = Some cell ∧ own_property h row = Some v ∧
                          undouble cell = Some v) as Hrow.
  { intros i row Hi.
    destruct (lookup_lt_is_Some_2 (results s) i) as [r Hr].
    { rewrite (inv_length s HI). by eapply lookup_lt_Some. }
    destruct (original_values_own row (headers (csvData s))) as (cells & Hcells & Hlen & Hcell).
    { intros h Hh. apply (inv_rows s HI row h); [by eapply list_elem_of_lookup_2|done|].
      intros ->. done. }
    exists r, cells. split; [done|]. split; [|done].
    rewrite Hr. unfold export_row. cbn [mbind option_bind]. rewrite Hcells.
    cbn [mbind option_bind]. by rewrite map_app. }
  unfold csvContent.
  destruct (mapM (λ ir, export_row (headers (csvData s)) ir.2 (results s !! ir.1))
              (imap pair (rows (csvData s)))) as [lines|] eqn:Hlines.
  - exists lines. split; [reflexivity|].
    pose proof (length_mapM _ _ _ Hlines) as Hlen. rewrite length_imap in Hlen.
    split; [done|]. intros i line Hline.
    apply mapM_Some_1 in Hlines.
    destruct (Forall2_lookup_r _ _ _ _ _ Hlines Hline) as ([i' row] & Hir & Hexp).
    apply list_lookup_imap_Some in Hir as (row' & Hrow' & [= -> ->]).
    cbn [fst snd] in Hexp.
    destruct (Hrow i row' Hrow') as (r & cells & Hr & Hexp' & Hlen' & Hcells).
    exists row', r, cells. repeat split; try done. congruence.
  - exfalso. apply mapM_None_1, Exists_exists in Hlines as ([i row] & Hin & Hnone).
    apply elem_of_lookup_imap_1 in Hin as (i' & row' & [= -> ->] & Hrow').
    destruct (Hrow i' row' Hrow') as (r & cells & _ & Hexp & _). cbn [fst snd] in Hnone.
    congruence.
Qed.

Lemma export_data_rows_quoted_witness :
  ∃ lines,
    csvContent demo_done
    = Some (join NL (join "," (headers (csvData demo_done) ++ ["Keywords"; "Status"])
                     :: lines)) ∧
    length lines = length (rows (csvData demo_done)) ∧
    ∀ i line, lines !! i = Some line →
      ∃ row r cells,
        rows (csvData demo_done) !! i = Some row ∧ results demo_done !! i = Some r ∧
        line = join "," (map quoted (cells ++ [join "; " (ResultRow.keywords r);
                                               status_cell r])) ∧
        length cells = length (headers (csvData demo_done)) ∧
        ∀ j h, headers (csvData demo_done) !! j = Some h →
          ∃ cell v, cells !! j = Some cell ∧ own_property h row = Some v ∧
                    undouble cell = Some v.
Proof.
  apply (export_data_rows_quoted demo_done).
  - exists (demo_start ++ map (Settled 0) [demo_keywords; demo_rate_limited]).
    vm_compute. reflexivity.
  - unfold demo_done. cbn [csvData headers].
    rewrite !elem_of_cons, elem_of_nil. intros [H|[H|[H|H]]]; done.
Defined.

(** C3 as stated fails on the header line: at the end of the demo run
    the export starts with the bare header names, where the claim
    expects each of them between double quotes. *)
Lemma export_header_not_quoted :
  csvContent demo_done
  = Some ("fileName,title,content,Keywords,Status" +:+ NL
          +:+ join "," (map quoted ["doc1.csv"; "Annual Report"; "Revenue grew";
                                    "revenue; annual report"; "completed"]) +:+ NL
          +:+ join "," (map quoted ["doc2.csv"; "Budget"; "Costs fell"; "";
                                    "Error: rate limited"])) ∧
  csvContent_all_quoted demo_done
  = Some (join "," (map quoted ["fileName"; "title"; "content"; "Keywords"; "Status"]) +:+ NL
          +:+ join "," (map quoted ["doc1.csv"; "Annual Report"; "Revenue grew";
                                    "revenue; annual report"; "completed"]) +:+ NL
          +:+ join "," (map quoted ["doc2.csv"; "Budget"; "Costs fell"; "";
                                    "Error: rate limited"])) ∧
  csvContent demo_done ≠ csvContent_all_quoted demo_done.
Proof. vm_compute. repeat split; try reflexivity. discriminate. Qed.

(** The derived cells are enclosed in double quotes as they are: a
    double quote in an error message is not doubled. *)
Example derived_cells_verbatim :
  (s ← run (demo_start ++ [Settled 0 demo_quote_error; Settled 0 demo_keywords]) initial;
   csvContent s)
  = Some ("fileName,title,content,Keywords,Status" +:+ NL
          +:+ join "," (map quoted ["doc1.csv"; "Annual Report"; "Revenue grew"; "";
                                    "Error: Unexpected token " +:+ Q]) +:+ NL
          +:+ join "," (map quoted ["doc2.csv"; "Budget"; "Costs fell";
                                    "revenue; annual report"; "completed"])).
Proof. vm_compute. reflexivity. Qed.

(** ** More on the run controller *)

Lemma status_running_dec s : status s = Running ∨ status s ≠ Running.
Proof. destruct (status s); auto. Qed.

Lemma live_calls_cancelled cs : List.filter (fun c => negb (isCancelled c)) (map cancel cs) = [].
Proof. induction cs as [|c cs IH]; [done|]. simpl. exact IH. Qed.

Lemma live_calls_delete n cs :
  length (List.filter (fun c => negb (isCancelled c)) (delete n cs))
  ≤ length (List.filter (fun c => negb (isCancelled c)) cs).
Proof.
  revert n. induction cs as [|c cs IH]; intros [|n]; simpl; try lia.
  - destruct (negb (isCancelled c)); simpl; lia.
  - specialize (IH n). destruct (negb (isCancelled c)); simpl; lia.
Qed.

Lemma elem_of_delete_ne {A} (x y : A) n (l : list A) :
  l !! n = Some y → x ≠ y → x ∈ l → x ∈ delete n l.
Proof.
  revert n. induction l as [|z l IH]; intros [|n] Hn Hne Hx; simpl in *.
  - by apply elem_of_nil in Hx.
  - by apply elem_of_nil in Hx.
  - injection Hn as ->. apply elem_of_cons in Hx as [->|Hx]; done.
  - apply elem_of_cons in Hx as [->|Hx]; [by left|right; eauto].
Qed.

(** What the effect leaves behind, whatever the state it runs in. *)
Lemma run_effect_calls s s' :
  run_effect s = Some s' →
  (∀ i r, results s !! i = Some r → is_terminal r = true → i < currentIndex s) →
  Inv_calls s'.
Proof.
  intros Hrun Hterm.
  pose proof (run_effect_frame _ _ Hrun) as (Hk & Hd & _ & _ & _ & _ & Hres).
  destruct (status_running_dec s) as [Hst|Hst].
  - destruct (run_effect_running _ _ Hst Hrun)
      as [(_ & Hst' & (r' & Hr' & Hp') & row & Hrow & Hcalls)|(_ & Hst' & Hsame & Hcalls)].
    + split.
      * unfold live_calls. rewrite Hcalls, List.filter_app, live_calls_cancelled. simpl. lia.
      * intros _. exists row. rewrite Hk, Hd, Hcalls. split; [done|].
        apply elem_of_app. right. by apply list_elem_of_singleton.
      * intros i r Hi Ht. rewrite Hk.
        destruct (decide (i = currentIndex s)) as [->|Hne].
        -- rewrite Hr' in Hi. injection Hi as <-. unfold is_terminal in Ht.
           by rewrite Hp' in Ht.
        -- rewrite Hres in Hi by done. eauto.
    + split.
      * unfold live_calls. rewrite Hcalls, live_calls_cancelled. simpl. lia.
      * intros Hrunning. congruence.
      * intros i r Hi Ht. rewrite Hk. rewrite Hsame in Hi. eauto.
  - destruct (run_effect_not_running _ _ Hst Hrun) as (Hst' & Hsame & Hcalls). split.
    + unfold live_calls. rewrite Hcalls, live_calls_cancelled. simpl. lia.
    + intros Hrunning. congruence.
    + intros i r Hi Ht. rewrite Hk. rewrite Hsame in Hi. eauto.
Qed.

Lemma step_inv_calls s e s' :
  Inv s → Inv_calls s → step s e = Some s' → Inv_calls s'.
Proof.
  intros HI [Hone Hlive Hterm] Hstep. destruct e as [f|n| | |n reply]; cbn [step] in Hstep.
  - injection Hstep as <-. unfold handleFileChange.
    destruct (String.eqb _ _); split; done.
  - destruct (reads s !! n) as [f|]; [|injection Hstep as <-; by split].
    unfold onload in Hstep. destruct (_ || _).
    + injection Hstep as <-. by split.
    + apply run_effect_calls in Hstep; [done|]. cbn [results].
      intros i r [-> _]%lookup_replicate. done.
  - unfold toggleProcessing in Hstep. by apply run_effect_calls in Hstep.
  - unfold handleReset in Hstep. apply run_effect_calls in Hstep; [done|].
    cbn [results]. intros i r Hi. by rewrite lookup_nil in Hi.
  - destruct (calls s !! n) as [c|] eqn:Hc; [|injection Hstep as <-; by split].
    unfold settle in Hstep. destruct (isCancelled c) eqn:Hcan.
    + injection Hstep as <-. split; cbn [set_calls status csvData currentIndex results calls].
      * unfold live_calls. cbn [calls]. etrans; [apply live_calls_delete|done].
      * intros Hst. destruct (Hlive Hst) as (row & Hrow & Hin). exists row. split; [done|].
        eapply elem_of_delete_ne; [done| |done]. intros <-. done.
      * done.
    + unfold array_set in Hstep. cbn [set_calls results] in Hstep.
      destruct (decide _); [|done].
      apply run_effect_calls in Hstep; [done|].
      cbn [results currentIndex set_calls].
      destruct (inv_active s HI c) as (Hidx & _); [by eapply list_elem_of_lookup_2|done|].
      intros i r Hi Ht. destruct (decide (i = call_index c)) as [->|Hne]; [lia|].
      rewrite list_lookup_insert_ne in Hi by done. specialize (Hterm _ _ Hi Ht). lia.
Qed.

Lemma reachable_inv_calls s : reachable s → Inv_calls s.
Proof.
  intros [events Hrun].
  assert (∀ evs s0 s1, Inv s0 → Inv_calls s0 → run evs s0 = Some s1 → Inv_calls s1) as Hgen.
  { induction evs as [|e evs IH]; intros s0 s1 HI HC Hr; cbn [run] in Hr.
    - by injection Hr as <-.
    - destruct (step_inv s0 e HI) as (s2 & Hstep & HI2). rewrite Hstep in Hr.
      apply (IH s2 s1 HI2); [|done]. exact (step_inv_calls s0 e s2 HI HC Hstep). }
  apply (Hgen events initial s initial_inv); [|done].
  split; cbn; [lia|done|]. intros i r Hi. by rewrite lookup_nil in Hi.
Qed.

Lemma filter_length_le_1 {A} (P : A → bool) (l : list A) x y :
  length (List.filter P l) ≤ 1 → x ∈ l → y ∈ l → P x = true → P y = true → x = y.
Proof.
  intros Hlen Hx Hy HPx HPy.
  assert (x ∈ List.filter P l) as Hx' by (apply list_elem_of_In, filter_In; by rewrite <- list_elem_of_In).
  assert (y ∈ List.filter P l) as Hy' by (apply list_elem_of_In, filter_In; by rewrite <- list_elem_of_In).
  destruct (List.filter P l) as [|z [|z' l']]; simpl in Hlen; [|
    apply list_elem_of_singleton in Hx', Hy'; congruence | lia].
  by apply elem_of_nil in Hx'.
Qed.

(** X1.  In every reachable state at most one awaited call can still
    write its result, and such a call is the call of the row under the
    cursor, made with the record of that row, while the run is
    underway. *)
Theorem one_live_call (s : State) :
  reachable s →
  length (live_calls s) ≤ 1 ∧
  ∀ c, c ∈ live_calls s →
    status s = Running ∧ call_index c = currentIndex s ∧
    rows (csvData s) !! currentIndex s = Some (call_row c).
Proof.
  intros Hreach. pose proof (reachable_inv s Hreach) as HI.
  destruct (reachable_inv_calls s Hreach) as [Hone Hlive _].
  split; [done|]. intros c Hc.
  apply list_elem_of_In, filter_In in Hc as [Hc Hcan]. apply list_elem_of_In in Hc.
  destruct (inv_active s HI c Hc) as (Hidx & Hst & _); [by destruct (isCancelled c)|].
  split; [done|]. split; [done|].
  destruct (Hlive Hst) as (row & Hrow & Hin).
  assert (c = mkCall (currentIndex s) row false) as ->; [|done].
  eapply (filter_length_le_1 _ (calls s)); [exact Hone|done|done|done|done].
Qed.

Lemma one_live_call_witness :
  length (live_calls demo_running) ≤ 1 ∧
  ∀ c, c ∈ live_calls demo_running →
    status demo_running = Running ∧ call_index c = currentIndex demo_running ∧
    rows (csvData demo_running) !! currentIndex demo_running = Some (call_row c).
Proof.
  apply one_live_call. exists demo_start. vm_compute. reflexivity.
Defined.

Lemma map_cancel_idemp cs : map cancel (map cancel cs) = map cancel cs.
Proof. induction cs as [|c cs IH]; [done|]. cbn. by rewrite IH. Qed.

(** X2.  Pausing and resuming while a call is awaited sends the row
    under the cursor a second time: the call that was awaited is
    cancelled but still awaited, a new call with the same row is
    awaited after it, and no state variable has changed. *)
Theorem resume_repeats_call (s : State) :
  reachable s → status s = Running →
  ∃ row s',
    rows (csvData s) !! currentIndex s = Some row ∧
    mkCall (currentIndex s) row false ∈ calls s ∧
    run [Toggle; Toggle] s = Some s' ∧
    calls s' = map cancel (calls s) ++ [mkCall (currentIndex s) row false] ∧
    react_state s' = react_state s.
Proof.
  intros Hreach Hst. pose proof (reachable_inv s Hreach) as HI.
  destruct (inv_live_row s (reachable_inv_calls s Hreach) Hst) as (row & Hrow & Hin).
  destruct (inv_running s HI Hst) as (r & Hr & Hp).
  exists row. destruct s as [f d res st k err cs rd]. cbn in *. subst st.
  unfold toggleProcessing, run_effect. cbn. rewrite Hrow, Hr. cbn.
  eexists. split; [done|]. split; [done|]. split; [reflexivity|]. cbn.
  split.
  - f_equal. apply map_cancel_idemp.
  - unfold react_state. cbn. repeat f_equal.
    apply list_insert_id. rewrite Hr. f_equal. destruct r as [rs rk re]. cbn in *. by subst.
Qed.

Lemma resume_repeats_call_witness :
  ∃ row s',
    rows (csvData demo_running) !! currentIndex demo_running = Some row ∧
    mkCall (currentIndex demo_running) row false ∈ calls demo_running ∧
    run [Toggle; Toggle] demo_running = Some s' ∧
    calls s' = map cancel (calls demo_running)
               ++ [mkCall (currentIndex demo_running) row false] ∧
    react_state s' = react_state demo_running.
Proof.
  apply resume_repeats_call.
  - exists demo_start. vm_compute. reflexivity.
  - reflexivity.
Defined.

(** X3.  Once the run is [Done], no event other than a toggle or a
    reset changes the status or the cursor, and no call that can write
    is awaited afterwards: a table that is loaded then stays
    unprocessed. *)
Theorem done_is_final (s : State) (e : Event) (s' : State) :
  reachable s → status s = Done → e ≠ Toggle → e ≠ Reset →
  step s e = Some s' →
  status s' = Done ∧ currentIndex s' = currentIndex s ∧ live_calls s' = [] ∧
  ∀ r, r ∈ results s' → r ∈ results s ∨ r = pending_row.
Proof.
  intros Hreach Hst Htog Hres Hstep. pose proof (reachable_inv s Hreach) as HI.
  assert (live_calls s = []) as Hnone.
  { unfold live_calls. destruct (List.filter _ (calls s)) as [|c l] eqn:E; [done|].
    assert (In c (List.filter (λ c, negb (isCancelled c)) (calls s))) as Hc
      by (rewrite E; by left).
    apply filter_In in Hc as [Hc Hcan]. apply list_elem_of_In in Hc.
    destruct (inv_active s HI c Hc) as (_ & Hrun & _); [by destruct (isCancelled c)|].
    congruence. }
  destruct e as [f|n| | |n reply]; try done; cbn [step] in Hstep.
  - injection Hstep as <-. unfold handleFileChange.
    destruct (String.eqb _ _); cbn; repeat split; auto.
  - destruct (reads s !! n) as [f|]; [|injection Hstep as <-; repeat split; auto].
    unfold onload in Hstep. destruct (_ || _).
    + injection Hstep as <-. cbn. repeat split; auto.
    + pose proof (run_effect_frame _ _ Hstep) as (Hk & _).
      apply run_effect_not_running in Hstep; [|cbn; congruence].
      cbn in Hstep, Hk. destruct Hstep as (Hst' & Hres' & Hcalls).
      split; [congruence|]. split; [done|]. split.
      * unfold live_calls. rewrite Hcalls. apply live_calls_cancelled.
      * intros r Hr. rewrite Hres' in Hr. right.
        by apply elem_of_replicate in Hr as [-> _].
  - destruct (calls s !! n) as [c|] eqn:Hc; [|injection Hstep as <-; repeat split; auto].
    unfold settle in Hstep.
    assert (isCancelled c = true) as Hcan.
    { destruct (isCancelled c) eqn:E; [done|].
      destruct (inv_active s HI c) as (_ & Hrun & _); [by eapply list_elem_of_lookup_2|done|].
      congruence. }
    rewrite Hcan in Hstep. injection Hstep as <-. cbn. repeat split; auto.
    unfold live_calls. cbn.
    pose proof (live_calls_delete n (calls s)) as Hle. unfold live_calls in Hnone.
    rewrite Hnone in Hle. simpl in Hle.
    destruct (List.filter _ (delete n (calls s))); [done|simpl in Hle; lia].
Qed.

Lemma done_is_final_witness :
  ∃ s', step demo_done (SelectFile demo_file) = Some s' ∧
    status s' = Done ∧ currentIndex s' = currentIndex demo_done ∧ live_calls s' = [] ∧
    ∀ r, r ∈ results s' → r ∈ results demo_done ∨ r = pending_row.
Proof.
  eexists. split; [vm_compute; reflexivity|].
  eapply (done_is_final demo_done (SelectFile demo_file)).
  - exists (demo_start ++ map (Settled 0) [demo_keywords; demo_rate_limited]).
    vm_compute. reflexivity.
  - reflexivity.
  - discriminate.
  - discriminate.
  - vm_compute. reflexivity.
Defined.

(** X4.  An outcome that has become terminal is never written again by
    a start, a pause, a resume, a settled call or a file selection: it
    changes only through a reset or the load of a table. *)
Theorem finished_rows_are_kept (s : State) (e : Event) (s' : State) (i : nat)
    (r : ResultRow) :
  reachable s → step s e = Some s' →
  e ≠ Reset → (∀ n, e ≠ FileLoaded n) →
  results s !! i = Some r → is_terminal r = true →
  results s' !! i = Some r.
Proof.
  intros Hreach Hstep Hreset Hload Hi Ht. pose proof (reachable_inv s Hreach) as HI.
  pose proof (inv_terminal s (reachable_inv_calls s Hreach) i r Hi Ht) as Hlt.
  destruct e as [f|n| | |n reply]; try done; cbn [step] in Hstep.
  - injection Hstep as <-. unfold handleFileChange. by destruct (String.eqb _ _).
  - by specialize (Hload n).
  - apply run_effect_frame in Hstep as (_ & _ & _ & _ & _ & _ & Hres).
    cbn in Hres. rewrite Hres by lia. done.
  - destruct (calls s !! n) as [c|] eqn:Hc; [|by injection Hstep as <-].
    unfold settle in Hstep. destruct (isCancelled c) eqn:Hcan; [by injection Hstep as <-|].
    destruct (inv_active s HI c) as (Hidx & _); [by eapply list_elem_of_lookup_2|done|].
    unfold array_set in Hstep. cbn [set_calls results] in Hstep.
    destruct (decide _); [|done].
    apply run_effect_frame in Hstep as (_ & _ & _ & _ & _ & _ & Hres).
    cbn in Hres. rewrite Hres by lia. rewrite list_lookup_insert_ne by lia. done.
Qed.

Lemma finished_rows_are_kept_witness :
  ∃ s', step demo_done Toggle = Some s' ∧
    results s' !! 0 = Some (ResultRow.mk Completed ["revenue"; "annual report"] None).
Proof.
  eexists. split; [vm_compute; reflexivity|].
  eapply (finished_rows_are_kept demo_done Toggle).
  - exists (demo_start ++ map (Settled 0) [demo_keywords; demo_rate_limited]).
    vm_compute. reflexivity.
  - vm_compute. reflexivity.
  - discriminate.
  - discriminate.
  - reflexivity.
  - reflexivity.
Defined.


(** X6.  A reset does not abort the read of a file that was selected
    before it: when the read completes on a valid table, the table is
    loaded with all its outcomes [Pending], although no file is
    selected any more. *)
Theorem reset_keeps_pending_read (s : State) (n : nat) (f : File) :
  reads s !! n = Some f →
  rows (parseCSV (file_text f)) ≠ [] →
  ∃ s', run [Reset; FileLoaded n] s = Some s' ∧
    file s' = None ∧ csvData s' = parseCSV (file_text f) ∧
    results s' = replicate (length (rows (parseCSV (file_text f)))) pending_row ∧
    status s' = Idle ∧ currentIndex s' = 0.
Proof.
  intros Hn Hrows. pose proof (parseCSV_headers _ Hrows) as Hhs.
  assert (step s Reset
          = Some (mkState None (mkCsvData [] []) [] Idle 0 None (map cancel (calls s))
                          (reads s))) as H1 by reflexivity.
  cbn [run]. rewrite H1. cbn [step reads]. rewrite Hn. unfold onload.
  destruct (rows (parseCSV (file_text f))) eqn:Er; [done|].
  destruct (headers (parseCSV (file_text f))) eqn:Eh; [done|].
  eexists. split; [reflexivity|]. repeat split.
Qed.

Lemma reset_keeps_pending_read_witness :
  ∃ s', run [Reset; FileLoaded 0] (handleFileChange demo_file initial) = Some s' ∧
    file s' = None ∧ csvData s' = parseCSV (file_text demo_file) ∧
    results s' = replicate (length (rows (parseCSV (file_text demo_file)))) pending_row ∧
    status s' = Idle ∧ currentIndex s' = 0.
Proof.
  apply (reset_keeps_pending_read (handleFileChange demo_file initial) 0 demo_file).
  - reflexivity.
  - vm_compute. discriminate.
Defined.

(** X7.  When the run is started after a valid file is selected but
    before its text has been read, the run is [Done] at once on the
    empty table; the load that follows fills the table, and leaves all
    its outcomes [Pending], the cursor at zero and no call awaited. *)
Theorem start_before_load (f : File) :
  file_type f = "text/csv" →
  rows (parseCSV (file_text f)) ≠ [] →
  ∃ s, run [SelectFile f; Toggle; FileLoaded 0] initial = Some s ∧
    status s = Done ∧ currentIndex s = 0 ∧ calls s = [] ∧
    csvData s = parseCSV (file_text f) ∧
    results s = replicate (length (rows (parseCSV (file_text f)))) pending_row.
Proof.
  intros Hty Hrows. pose proof (parseCSV_headers _ Hrows) as Hhs.
  assert (step initial (SelectFile f)
          = Some (mkState (Some f) (mkCsvData [] []) [] Idle 0 None [] [f])) as H1.
  { cbn [step]. unfold handleFileChange. by rewrite Hty, String.eqb_refl. }
  assert (step (mkState (Some f) (mkCsvData [] []) [] Idle 0 None [] [f]) Toggle
          = Some (mkState (Some f) (mkCsvData [] []) [] Done 0 None [] [f])) as H2
    by reflexivity.
  assert (step (mkState (Some f) (mkCsvData [] []) [] Done 0 None [] [f]) (FileLoaded 0)
          = Some (mkState (Some f) (parseCSV (file_text f))
                    (replicate (length (rows (parseCSV (file_text f)))) pending_row)
                    Done 0 None [] [])) as H3.
  { cbn [step reads lookup list_lookup]. unfold onload.
    destruct (rows (parseCSV (file_text f))) eqn:Er; [done|].
    destruct (headers (parseCSV (file_text f))) eqn:Eh; [done|].
    reflexivity. }
  cbn [run]. rewrite H1, H2, H3. eexists. split; [reflexivity|]. repeat split.
Qed.

Lemma start_before_load_witness :
  ∃ s, run [SelectFile demo_file; Toggle; FileLoaded 0] initial = Some s ∧
    status s = Done ∧ currentIndex s = 0 ∧ calls s = [] ∧
    csvData s = parseCSV (file_text demo_file) ∧
    results s = replicate (length (rows (parseCSV (file_text demo_file)))) pending_row.
Proof.
  apply (start_before_load demo_file).
  - reflexivity.
  - vm_compute. discriminate.
Defined.

(** ** More on the parser *)

Lemma trimStart_white w s : all_white_space w = true → trimStart (w +:+ s) = trimStart s.
Proof.
  induction w as [|c w IH]; [done|]. cbn [all_white_space].
  intros [Hc Hw]%andb_true_iff. rewrite string_app_cons. cbn [trimStart]. rewrite Hc. auto.
Qed.

Lemma trimStart_all_white w : all_white_space w = true → trimStart w = "".
Proof.
  induction w as [|c w IH]; [done|]. cbn [all_white_space trimStart].
  intros [-> Hw]%andb_true_iff. auto.
Qed.

Lemma trimStart_app s t :
  trimStart (s +:+ t) = if all_white_space s then trimStart t else trimStart s +:+ t.
Proof.
  induction s as [|c s IH]; [done|]. rewrite string_app_cons. cbn [trimStart all_white_space].
  destruct (is_white_space c); [exact IH|done].
Qed.

Lemma trimEnd_all_white w : all_white_space w = true → trimEnd w = "".
Proof.
  induction w as [|c w IH]; [done|]. cbn [all_white_space trimEnd].
  intros [-> Hw]%andb_true_iff. by rewrite IH.
Qed.

Lemma trimEnd_white s w : all_white_space w = true → trimEnd (s +:+ w) = trimEnd s.
Proof.
  intros Hw. induction s as [|c s IH].
  - rewrite string_app_nil_l. by apply trimEnd_all_white.
  - rewrite string_app_cons. cbn [trimEnd]. by rewrite IH.
Qed.

Lemma all_white_space_app s t :
  all_white_space (s +:+ t) = all_white_space s && all_white_space t.
Proof.
  induction s as [|c s IH]; [done|]. rewrite string_app_cons. cbn [all_white_space].
  by rewrite IH, andb_assoc.
Qed.

Lemma trim_surrounded w1 s w2 :
  all_white_space w1 = true → all_white_space w2 = true →
  trim (w1 +:+ s +:+ w2) = trim s.
Proof.
  intros H1 H2. unfold trim. rewrite (trimStart_white w1 _ H1), trimStart_app.
  destruct (all_white_space s) eqn:Hs.
  - rewrite (trimStart_all_white w2 H2), (trimStart_all_white s Hs). done.
  - by apply trimEnd_white.
Qed.

(** X8.  White space around the text of a table, a line end after its
    last line included, does not change what [parseCSV] returns. *)
Theorem parseCSV_ignores_surrounding_space (w1 text w2 : string) :
  all_white_space w1 = true → all_white_space w2 = true →
  parseCSV (w1 +:+ text +:+ w2) = parseCSV text.
Proof.
  intros H1 H2. unfold parseCSV, lines_of. by rewrite trim_surrounded.
Qed.

Lemma parseCSV_ignores_surrounding_space_witness :
  parseCSV (NL +:+ acme_text +:+ CRLF) = parseCSV acme_text.
Proof.
  apply (parseCSV_ignores_surrounding_space NL acme_text CRLF); reflexivity.
Defined.

Lemma length_cons_first c pieces : pieces ≠ [] → length (cons_first c pieces) = length pieces.
Proof. by destruct pieces. Qed.

Lemma length_split_char c s : length (split_char c s) = S (count_char c s).
Proof.
  unfold split_char. induction s as [|x s IH]; [done|]. cbn [split_on count_char].
  destruct (Ascii.eqb x c); cbn [length Nat.add].
  - by rewrite IH.
  - rewrite length_cons_first by apply split_on_not_nil. exact IH.
Qed.

(** X9.  The table has one record for each line feed of the trimmed
    text once its CR LF pairs are replaced, blank lines included; with
    no line feed there, it has no record and no header. *)
Theorem parseCSV_counts_lines (text : string) :
  length (rows (parseCSV text)) = count_char LF (replace_crlf (trim text)) ∧
  (count_char LF (replace_crlf (trim text)) = 0 → parseCSV text = mkCsvData [] []).
Proof.
  pose proof (length_split_char LF (replace_crlf (trim text))) as Hlen.
  unfold parseCSV, lines_of.
  destruct (split_char LF (replace_crlf (trim text))) as [|first [|l rest]];
    cbn [length] in Hlen; [discriminate Hlen| |]; injection Hlen as Hlen.
  - split; [done|done].
  - cbn [rows]. rewrite length_map. cbn [length]. split; [done|]. intros H. lia.
Qed.

Lemma parseCSV_counts_lines_witness :
  count_char LF (replace_crlf (trim "fileName,title")) = 0 ∧
  parseCSV "fileName,title" = mkCsvData [] [].
Proof.
  split; [reflexivity|].
  apply (proj2 (parseCSV_counts_lines "fileName,title")). reflexivity.
Defined.

Lemma keys_define_property k v row :
  map fst (define_property k v row) = Set_add (map fst row) k.
Proof.
  unfold Set_add. induction row as [|[k0 v0] row IH]; [done|].
  cbn [define_property map fst includes existsb].
  rewrite (String.eqb_sym k k0). destruct (String.eqb k0 k) eqn:E; cbn [orb]; [done|].
  cbn [map fst]. fold (includes (map fst row) k). rewrite IH.
  by destruct (includes (map fst row) k).
Qed.

Lemma keys_assign_columns cell cols row :
  map fst (assign_columns cell cols row)
  = fold_left Set_add (List.filter not_proto cols.*2) (map fst row).
Proof.
  revert row. induction cols as [|[i k] cols IH]; intros row; [done|].
  rewrite assign_columns_cons, IH. cbn [fmap list_fmap snd List.filter]. unfold row_set, not_proto.
  destruct (String.eqb k "__proto__"); cbn [negb]; [done|].
  cbn [fold_left]. by rewrite keys_define_property.
Qed.

(** The properties of a record are created in the order of the header
    names, one for each name but __proto__. *)
Lemma parse_row_names hs line :
  map fst (parse_row hs line) = Array_from_Set (List.filter not_proto hs).
Proof. unfold parse_row. rewrite keys_assign_columns, snd_combine_seq. reflexivity. Qed.

Lemma last_occurrence (hs : list string) : ∀ j h,
  hs !! j = Some h → ∃ j', j ≤ j' ∧ hs !! j' = Some h ∧ h ∉ drop (S j') hs.
Proof.
  induction hs as [|h0 hs IH]; intros j h Hj; [done|].
  destruct (decide (h ∈ hs)) as [Hin|Hnot].
  - apply list_elem_of_lookup in Hin as [i Hi].
    destruct j as [|j].
    + destruct (IH i h Hi) as (j' & _ & Hj' & Hlast). exists (S j').
      split; [lia|]. split; [exact Hj'|exact Hlast].
    + destruct (IH j h Hj) as (j' & Hle & Hj' & Hlast). exists (S j').
      split; [lia|]. split; [exact Hj'|exact Hlast].
  - destruct j as [|j].
    + injection Hj as ->. exists 0. split; [done|]. split; [done|]. exact Hnot.
    + exfalso. apply Hnot. by apply (list_elem_of_lookup_2 hs j h).
Qed.

(** The value of a column in the record of a line. *)
Lemma parse_row_lookup hs line j h :
  hs !! j = Some h → h ≠ "__proto__" → h ∉ drop (S j) hs →
  own_property h (parse_row hs line) = Some (strip_quotes (field_at (split_row line) j)).
Proof.
  intros Hj Hne Hlast. unfold parse_row.
  by rewrite (assign_columns_lookup _ _ 0 j h).
Qed.

(** X11.  When a line has fewer fields than there are headers, the
    record of the line holds the empty string under every header whose
    column lies beyond the fields of the line. *)
Theorem short_line_gives_empty_values (hs : list string) (line : string) (j : nat)
    (h : string) :
  hs !! j = Some h → h ≠ "__proto__" →
  length (split_row line) ≤ j →
  own_property h (parse_row hs line) = Some "".
Proof.
  intros Hj Hne Hshort. destruct (last_occurrence hs j h Hj) as (j' & Hle & Hj' & Hlast).
  rewrite (parse_row_lookup hs line j' h Hj' Hne Hlast).
  unfold field_at. rewrite lookup_ge_None_2 by lia. reflexivity.
Qed.

Lemma short_line_gives_empty_values_witness :
  own_property "title" (parse_row ["fileName"; "company"; "title"] "a.pdf,Acme") = Some "".
Proof.
  apply (short_line_gives_empty_values ["fileName"; "company"; "title"] "a.pdf,Acme" 2).
  - reflexivity.
  - discriminate.
  - vm_compute. lia.
Defined.

(** X12.  When several headers carry the same name, the record holds
    under that name the field of the last of these columns, trimmed
    and without its surrounding double quotes; the fields of the
    earlier columns of that name are lost. *)
Theorem repeated_header_keeps_last (hs : list string) (line : string) (j : nat)
    (h : string) :
  hs !! j = Some h → h ≠ "__proto__" → h ∉ drop (S j) hs →
  own_property h (parse_row hs line) = Some (strip_quotes (field_at (split_row line) j)) ∧
  length (List.filter (fun kv => String.eqb (fst kv) h) (parse_row hs line)) = 1.
Proof.
  intros Hj Hne Hlast. split; [by apply parse_row_lookup|].
  assert (NoDup (map fst (parse_row hs line)) ∧ h ∈ map fst (parse_row hs line)) as [Hnd Hin].
  { unfold parse_row. rewrite keys_assign_columns, snd_combine_seq. cbn [map].
    destruct (fold_Set_add (List.filter not_proto hs) [] (NoDup_nil_2 (A:=string)))
      as [Hnd Hin]. split; [done|]. apply Hin. right.
    apply list_elem_of_In, filter_In. split.
    - apply list_elem_of_In. by eapply list_elem_of_lookup_2.
    - unfold not_proto. apply negb_true_iff, String.eqb_neq. done. }
  induction (parse_row hs line) as [|[k v] row IH]; [by apply elem_of_nil in Hin|].
  cbn [map fst] in Hnd, Hin. apply NoDup_cons in Hnd as [Hk Hnd].
  cbn [List.filter fst]. destruct (String.eqb k h) eqn:E.
  - apply String.eqb_eq in E as ->. cbn [length]. f_equal.
    assert (List.filter (λ kv, String.eqb (fst kv) h) row = []) as ->; [|done].
    clear IH Hin Hnd. induction row as [|[k' v'] row IH]; [done|].
    cbn [List.filter fst]. destruct (String.eqb k' h) eqn:E'.
    + apply String.eqb_eq in E' as ->. exfalso. apply Hk. by left.
    + apply IH. intros H. apply Hk. by right.
  - apply IH; [done|]. apply elem_of_cons in Hin as [->|Hin]; [|done].
    by rewrite String.eqb_refl in E.
Qed.

Lemma repeated_header_keeps_last_witness :
  own_property "tag" (parse_row ["tag"; "title"; "tag"] "red,Report,blue") = Some "blue" ∧
  length (List.filter (fun kv => String.eqb (fst kv) "tag")
                      (parse_row ["tag"; "title"; "tag"] "red,Report,blue")) = 1.
Proof.
  apply (repeated_header_keeps_last ["tag"; "title"; "tag"] "red,Report,blue" 2).
  - reflexivity.
  - discriminate.
  - simpl. apply not_elem_of_nil.
Defined.

(** *** Line ends *)

Lemma string_ind2 (P : string → Prop) :
  P "" → (∀ c, P (String c "")) →
  (∀ c c' s, P s → P (String c' s) → P (String c (String c' s))) →
  ∀ s, P s.
Proof.
  intros H0 H1 H2 s.
  assert (P s ∧ ∀ c, P (String c s)) as [H _]; [|exact H].
  induction s as [|c s [IHs IHc]]; [by split|]. split; [apply IHc|].
  intros c0. apply H2; [exact IHs|apply IHc].
Qed.

Lemma replace_crlf_pair s : replace_crlf (String CR (String LF s)) = String LF (replace_crlf s).
Proof. reflexivity. Qed.

Lemma replace_crlf_cons c c' s :
  Ascii.eqb c CR && Ascii.eqb c' LF = false →
  replace_crlf (String c (String c' s)) = String c (replace_crlf (String c' s)).
Proof. intros H. cbn [replace_crlf]. rewrite H. reflexivity. Qed.

Lemma crlf_pair c c' : Ascii.eqb c CR && Ascii.eqb c' LF = true → c = CR ∧ c' = LF.
Proof. intros [H1 H2]%andb_true_iff. by apply Ascii.eqb_eq in H1, H2. Qed.

Lemma replace_crlf_trimStart s : replace_crlf (trimStart s) = trimStart (replace_crlf s).
Proof.
  induction s as [|c|c c' s IH IH'] using string_ind2.
  - reflexivity.
  - cbn [trimStart replace_crlf]. by destruct (is_white_space c).
  - destruct (Ascii.eqb c CR && Ascii.eqb c' LF) eqn:E.
    + apply crlf_pair in E as [-> ->]. rewrite replace_crlf_pair.
      cbn [trimStart]. change (is_white_space CR) with true.
      change (is_white_space LF) with true. cbv iota. exact IH.
    + rewrite (replace_crlf_cons c c' s E).
      cbn [trimStart]. destruct (is_white_space c).
      * exact IH'.
      * by rewrite (replace_crlf_cons c c' s E).
Qed.

Lemma all_white_space_replace_crlf s :
  all_white_space (replace_crlf s) = all_white_space s.
Proof.
  induction s as [|c|c c' s IH IH'] using string_ind2; [done|done|].
  destruct (Ascii.eqb c CR && Ascii.eqb c' LF) eqn:E.
  - apply crlf_pair in E as [-> ->]. rewrite replace_crlf_pair.
    cbn [all_white_space]. change (is_white_space CR) with true.
    change (is_white_space LF) with true. cbn [andb]. exact IH.
  - rewrite (replace_crlf_cons c c' s E). cbn [all_white_space] in *. by rewrite IH'.
Qed.

Lemma trimEnd_empty s : trimEnd s = "" → all_white_space s = true.
Proof.
  induction s as [|c s IH]; [done|]. cbn [trimEnd all_white_space].
  destruct (trimEnd s); [|done]. destruct (is_white_space c); [|done]. auto.
Qed.

Lemma trimEnd_cons c s :
  trimEnd (String c s)
  = if all_white_space s then (if is_white_space c then "" else String c "")
    else String c (trimEnd s).
Proof.
  cbn [trimEnd]. destruct (all_white_space s) eqn:E.
  - by rewrite (trimEnd_all_white s E).
  - destruct (trimEnd s) eqn:E'; [|done].
    apply trimEnd_empty in E'. congruence.
Qed.

Lemma trimEnd_first c s :
  all_white_space (String c s) = false → ∃ t, trimEnd (String c s) = String c t.
Proof.
  intros Hs. rewrite trimEnd_cons. cbn [all_white_space] in Hs.
  destruct (all_white_space s); [|by eexists].
  rewrite andb_true_r in Hs. rewrite Hs. by eexists.
Qed.

Lemma replace_crlf_trimEnd s : replace_crlf (trimEnd s) = trimEnd (replace_crlf s).
Proof.
  induction s as [|c|c c' s IH IH'] using string_ind2.
  - reflexivity.
  - cbn [trimEnd replace_crlf]. by destruct (is_white_space c).
  - destruct (Ascii.eqb c CR && Ascii.eqb c' LF) eqn:E.
    + apply crlf_pair in E as [-> ->]. rewrite replace_crlf_pair.
      rewrite !trimEnd_cons. rewrite all_white_space_replace_crlf.
      cbn [all_white_space]. change (is_white_space LF) with true.
      change (is_white_space CR) with true. cbn [andb].
      destruct (all_white_space s) eqn:Hs; [done|].
      rewrite replace_crlf_pair. by rewrite IH.
    + rewrite (replace_crlf_cons c c' s E).
      rewrite (trimEnd_cons c (String c' s)), (trimEnd_cons c (replace_crlf (String c' s))).
      rewrite all_white_space_replace_crlf.
      destruct (all_white_space (String c' s)) eqn:Hs.
      * by destruct (is_white_space c).
      * rewrite <- IH'. destruct (trimEnd_first c' s Hs) as [t ->].
        by apply replace_crlf_cons.
Qed.

Lemma replace_crlf_trim s : replace_crlf (trim s) = trim (replace_crlf s).
Proof. unfold trim. by rewrite replace_crlf_trimEnd, replace_crlf_trimStart. Qed.

Lemma contains_app c s t : contains c (s +:+ t) = contains c s || contains c t.
Proof.
  induction s as [|x s IH]; [done|]. rewrite string_app_cons. cbn [contains].
  by rewrite IH, orb_assoc.
Qed.

Lemma replace_crlf_no_CR s : contains CR s = false → replace_crlf s = s.
Proof.
  induction s as [|c|c c' s IH IH'] using string_ind2; [done|done|].
  cbn [contains]. intros [Hc Hs]%orb_false_iff.
  rewrite replace_crlf_cons by (by rewrite Hc). f_equal. by apply IH'.
Qed.

Lemma replace_crlf_line l rest :
  contains CR l = false →
  replace_crlf (l +:+ CRLF +:+ rest) = l +:+ NL +:+ replace_crlf rest.
Proof.
  intros Hl. induction l as [|c l IH].
  - reflexivity.
  - cbn [contains] in Hl. apply orb_false_iff in Hl as [Hc Hl].
    rewrite !string_app_cons. destruct (l +:+ CRLF +:+ rest) as [|c' t] eqn:E.
    + destruct l; discriminate E.
    + rewrite replace_crlf_cons by (by rewrite Hc). by rewrite (IH Hl).
Qed.

Lemma replace_crlf_join ls :
  Forall (fun l => contains CR l = false) ls →
  replace_crlf (join CRLF ls) = join NL ls.
Proof.
  induction ls as [|l ls IH]; [done|]. intros [Hl Hls]%Forall_cons.
  destruct ls as [|l' ls].
  - cbn [join]. by apply replace_crlf_no_CR.
  - change (join CRLF (l :: l' :: ls)) with (l +:+ CRLF +:+ join CRLF (l' :: ls)).
    change (join NL (l :: l' :: ls)) with (l +:+ NL +:+ join NL (l' :: ls)).
    rewrite (replace_crlf_line l _ Hl), (IH Hls). reflexivity.
Qed.

Lemma contains_CR_join ls :
  Forall (fun l => contains CR l = false) ls → contains CR (join NL ls) = false.
Proof.
  induction ls as [|l ls IH]; [done|]. intros [Hl Hls]%Forall_cons.
  destruct ls as [|l' ls]; [done|].
  change (join NL (l :: l' :: ls)) with (l +:+ NL +:+ join NL (l' :: ls)).
  rewrite !contains_app, Hl, (IH Hls). reflexivity.
Qed.

(** X13.  A table whose lines end with CR LF gives the same headers
    and records as the same lines ended with LF alone (lines free of
    other carriage returns). *)
Theorem parseCSV_crlf_agrees (ls : list string) :
  Forall (fun l => contains CR l = false) ls →
  parseCSV (join CRLF ls) = parseCSV (join NL ls).
Proof.
  intros Hls. unfold parseCSV, lines_of.
  rewrite !replace_crlf_trim, (replace_crlf_join ls Hls).
  by rewrite (replace_crlf_no_CR _ (contains_CR_join ls Hls)).
Qed.

Lemma parseCSV_crlf_agrees_witness :
  parseCSV (join CRLF ["fileName,title"; "doc1.csv,Report"; "doc2.csv,Budget"])
  = parseCSV (join NL ["fileName,title"; "doc1.csv,Report"; "doc2.csv,Budget"]).
Proof.
  apply (parseCSV_crlf_agrees ["fileName,title"; "doc1.csv,Report"; "doc2.csv,Budget"]).
  repeat constructor.
Defined.

(** ** More on the request *)

Lemma lower_char_f_not_digit c :
  lower_char c = "f"%char → digit_value c = None ∧ Ascii.eqb c "0"%char = false.
Proof.
  destruct c as [[] [] [] [] [] [] [] []]; vm_compute; intros H; try discriminate H;
    split; reflexivity.
Qed.

Lemma filename_not_index key : toLowerCase key = "filename" → array_index key = None.
Proof.
  intros H. destruct key as [|c rest]; [done|].
  cbn [toLowerCase] in H. injection H as Hc _.
  apply lower_char_f_not_digit in Hc as [Hd H0].
  unfold array_index. rewrite H0. cbn [digits_value]. by rewrite Hd.
Qed.

(** X14.  The value of the file name column, under any spelling of
    its name that differs from filename by case only, never reaches
    the request: the prompt is the same whatever that value is. *)
Theorem file_name_never_sent (row : CSVRow) (key v : string) :
  toLowerCase key = "filename" →
  userPrompt (row_set key v row) = userPrompt row.
Proof.
  intros Hkey.
  assert (attributes (row_set key v row) = attributes row) as Hattrs.
  { unfold row_set. destruct (String.eqb key "__proto__"); [done|].
    apply attributes_define_property; [by rewrite Hkey|by apply filename_not_index]. }
  assert (key ≠ "title" ∧ key ≠ "content") as [Ht Hc]
    by (split; intros ->; discriminate Hkey).
  unfold userPrompt, attributesText, title, content.
  by rewrite Hattrs, !own_or_empty_row_set.
Qed.

Lemma file_name_never_sent_witness :
  userPrompt (row_set "fileName" "doc1.csv" [("title", "Annual Report"); ("Region", "EMEA")])
  = userPrompt [("title", "Annual Report"); ("Region", "EMEA")].
Proof. apply file_name_never_sent. reflexivity. Defined.

Lemma Permutation_List_filter {A} (P : A → bool) (l l' : list A) :
  l ≡ₚ l' → List.filter P l ≡ₚ List.filter P l'.
Proof.
  induction 1 as [|x l l' _ IH|x y l|l l' l'' _ IH _ IH']; cbn [List.filter].
  - done.
  - destruct (P x); [by constructor|done].
  - destruct (P x), (P y); try done. apply perm_swap.
  - by etrans.
Qed.

Lemma insert_sorted_Permutation kv l : insert_sorted kv l ≡ₚ kv :: l.
Proof.
  induction l as [|kv' l IH]; [done|]. cbn [insert_sorted].
  destruct (index_leb kv kv'); [done|]. rewrite IH. apply perm_swap.
Qed.

Lemma insertion_sort_Permutation l : fold_right insert_sorted [] l ≡ₚ l.
Proof.
  induction l as [|kv l IH]; [done|]. cbn [fold_right].
  rewrite insert_sorted_Permutation. by constructor.
Qed.

Lemma filter_partition_Permutation {A} (P : A → bool) (l : list A) :
  List.filter P l ++ List.filter (fun x => negb (P x)) l ≡ₚ l.
Proof.
  induction l as [|x l IH]; [done|]. cbn [List.filter].
  destruct (P x); cbn [negb app].
  - by constructor.
  - rewrite <- Permutation_middle. by constructor.
Qed.

Lemma Object_entries_Permutation row : Object_entries row ≡ₚ row.
Proof.
  unfold Object_entries. rewrite insertion_sort_Permutation.
  apply filter_partition_Permutation.
Qed.

Lemma filter_all {A} (P : A → bool) (l : list A) :
  (∀ x, x ∈ l → P x = true) → List.filter P l = l.
Proof.
  induction l as [|x l IH]; intros H; [done|]. cbn [List.filter].
  rewrite (H x) by (by left). f_equal. apply IH. intros y Hy. apply H. by right.
Qed.

Lemma filter_none {A} (P : A → bool) (l : list A) :
  (∀ x, x ∈ l → P x = false) → List.filter P l = [].
Proof.
  induction l as [|x l IH]; intros H; [done|]. cbn [List.filter].
  rewrite (H x) by (by left). apply IH. intros y Hy. apply H. by right.
Qed.

Lemma filter_keys (P : string → bool) (row : CSVRow) : ∀ row' : CSVRow,
  map fst row = map fst row' →
  map fst (List.filter (fun kv => P (fst kv)) row)
  = map fst (List.filter (fun kv => P (fst kv)) row').
Proof.
  induction row as [|[k v] row IH]; intros [|[k' v'] row']; try done.
  cbn [map fst List.filter]. intros [= <- Hrest].
  destruct (P k); cbn [map fst]; [f_equal|]; by apply IH.
Qed.

Lemma insert_sorted_keys kv kv' l : ∀ l',
  fst kv = fst kv' → map fst l = map fst l' →
  map fst (insert_sorted kv l) = map fst (insert_sorted kv' l').
Proof.
  induction l as [|x l IH]; intros [|x' l'] Hkv; try done.
  - intros _. cbn. by rewrite Hkv.
  - cbn [map]. intros [= Hx Hrest]. cbn [insert_sorted].
    assert (index_leb kv x = index_leb kv' x') as -> by (unfold index_leb; by rewrite Hkv, Hx).
    destruct (index_leb kv' x'); cbn [map].
    + by rewrite Hkv, Hx, Hrest.
    + rewrite Hx. f_equal. by apply IH.
Qed.

Lemma insertion_sort_keys l : ∀ l',
  map fst l = map fst l' →
  map fst (fold_right insert_sorted [] l) = map fst (fold_right insert_sorted [] l').
Proof.
  induction l as [|kv l IH]; intros [|kv' l']; try done.
  cbn [map fold_right]. intros [= Hkv Hrest]. apply insert_sorted_keys; [done|by apply IH].
Qed.

(** The order in which [Object.entries] lists the names depends on the
    names and on the order of their creation only. *)
Lemma Object_entries_keys (row row' : CSVRow) :
  map fst row = map fst row' →
  map fst (Object_entries row) = map fst (Object_entries row').
Proof.
  intros Hkeys. unfold Object_entries. rewrite !map_app. f_equal.
  - apply insertion_sort_keys.
    apply (filter_keys (fun k => match array_index k with Some _ => true | None => false end)
             row row' Hkeys).
  - apply (filter_keys
             (fun k => negb (match array_index k with Some _ => true | None => false end))
             row row' Hkeys).
Qed.

(** X10.  Every record of the table has the same property names,
    which [Object.entries] lists in the same order whatever the line
    of the record holds: the header names but __proto__, each once.
    The order is that of the first occurrences of the names in the
    header line when no header name is an array index. *)
Theorem record_keys_are_headers (text : string) (row : CSVRow) :
  row ∈ rows (parseCSV text) →
  map fst (Object_entries row)
  ≡ₚ Array_from_Set (List.filter not_proto (headers (parseCSV text))) ∧
  NoDup (map fst (Object_entries row)) ∧
  (∀ row', row' ∈ rows (parseCSV text) →
           map fst (Object_entries row') = map fst (Object_entries row)) ∧
  ((∀ h, h ∈ headers (parseCSV text) → array_index h = None) →
   map fst (Object_entries row)
   = Array_from_Set (List.filter not_proto (headers (parseCSV text)))).
Proof.
  intros Hrow.
  assert (∀ r, r ∈ rows (parseCSV text) →
               map fst r = Array_from_Set (List.filter not_proto (headers (parseCSV text))))
    as Hnames.
  { unfold parseCSV. destruct (lines_of text) as [|first [|l rest]]; cbn [rows headers];
      try (intros r H; by apply elem_of_nil in H).
    intros r (line & -> & _)%list_elem_of_fmap. apply parse_row_names. }
  destruct (fold_Set_add (List.filter not_proto (headers (parseCSV text))) []
              (NoDup_nil_2 (A:=string))) as [Hnd Hin].
  fold (Array_from_Set (List.filter not_proto (headers (parseCSV text)))) in Hnd, Hin.
  assert (map fst (Object_entries row)
          ≡ₚ Array_from_Set (List.filter not_proto (headers (parseCSV text)))) as Hperm.
  { rewrite <- (Hnames row Hrow). apply Permutation_map, Object_entries_Permutation. }
  split; [exact Hperm|]. split; [by rewrite Hperm|]. split.
  - intros row' Hrow'. apply Object_entries_keys. by rewrite (Hnames row), (Hnames row').
  - intros Hnone. rewrite <- (Hnames row Hrow). f_equal.
    assert (∀ kv, kv ∈ row → array_index (fst kv) = None) as Hrownone.
    { intros kv Hkv. apply Hnone.
      assert (fst kv ∈ map fst row) as Hk by (apply list_elem_of_fmap; by exists kv).
      rewrite (Hnames row Hrow) in Hk. apply Hin in Hk as [Hk|Hk]; [by apply elem_of_nil in Hk|].
      apply list_elem_of_In, List.filter_In in Hk as [Hk _]. by apply list_elem_of_In. }
    unfold Object_entries.
    rewrite (filter_none is_array_index row), (filter_all (λ kv, negb (is_array_index kv)) row).
    + reflexivity.
    + intros kv Hkv. unfold is_array_index. by rewrite (Hrownone kv Hkv).
    + intros kv Hkv. unfold is_array_index. by rewrite (Hrownone kv Hkv).
Qed.

Lemma record_keys_are_headers_witness :
  map fst (Object_entries [("name", "a"); ("2020", "7"); ("2019", "5")])
  = ["2019"; "2020"; "name"] ∧
  map fst (Object_entries [("name", "a"); ("2020", "7"); ("2019", "5")])
  ≡ₚ ["name"; "2020"; "2019"] ∧
  map fst (Object_entries [("fileName", "a.pdf"); ("company", "Acme, Inc.");
                           ("title", "Annual report")])
  = ["fileName"; "company"; "title"].
Proof.
  split; [reflexivity|]. split.
  - apply (record_keys_are_headers years_text).
    assert (rows (parseCSV years_text) = [[("name", "a"); ("2020", "7"); ("2019", "5")]])
      as -> by (vm_compute; reflexivity).
    by apply list_elem_of_singleton.
  - assert (headers (parseCSV acme_text) = ["fileName"; "company"; "title"]) as Hhs
      by (vm_compute; reflexivity).
    assert (Array_from_Set (List.filter not_proto (headers (parseCSV acme_text)))
            = ["fileName"; "company"; "title"]) as <- by (vm_compute; reflexivity).
    apply (record_keys_are_headers acme_text).
    + assert (rows (parseCSV acme_text)
              = [[("fileName", "a.pdf"); ("company", "Acme, Inc.");
                  ("title", "Annual report")]])
        as -> by (vm_compute; reflexivity).
      by apply list_elem_of_singleton.
    + rewrite Hhs. intros h Hh.
      repeat (apply elem_of_cons in Hh as [->|Hh]; [reflexivity|]).
      by apply elem_of_nil in Hh.
Defined.

(** X15.  The attributes of the request are the columns of the record
    whose name is not reserved, whatever its case, and whose value is
    not empty, each of them once; they come in the order of the
    columns when no column is named by an array index. *)
Theorem attributes_are_filled_columns (row : CSVRow) :
  attributes row
  ≡ₚ map (fun kv => mkAttribute (fst kv) (snd kv)) (List.filter is_attribute row) ∧
  ((∀ kv, kv ∈ row → array_index (fst kv) = None) →
   attributes row
   = map (fun kv => mkAttribute (fst kv) (snd kv)) (List.filter is_attribute row)).
Proof.
  split.
  - unfold attributes. apply Permutation_map, Permutation_List_filter,
      Object_entries_Permutation.
  - intros Hnone. unfold attributes, Object_entries.
    rewrite (filter_none is_array_index row), (filter_all (λ kv, negb (is_array_index kv)) row).
    + reflexivity.
    + intros kv Hkv. unfold is_array_index. by rewrite (Hnone kv Hkv).
    + intros kv Hkv. unfold is_array_index. by rewrite (Hnone kv Hkv).
Qed.

Lemma attributes_are_filled_columns_witness :
  attributes [("fileName", "doc1.csv"); ("title", "Annual Report"); ("Region", "EMEA");
              ("Country", "")]
  = [mkAttribute "Region" "EMEA"].
Proof.
  rewrite (proj2 (attributes_are_filled_columns
                    [("fileName", "doc1.csv"); ("title", "Annual Report"); ("Region", "EMEA");
                     ("Country", "")])); [reflexivity|].
  intros kv Hkv. repeat (apply elem_of_cons in Hkv as [->|Hkv]; [reflexivity|]).
  by apply elem_of_nil in Hkv.
Defined.

(** ** More on the keyword view *)

Lemma Array_from_Set_snoc xs y : ∀ acc,
  fold_left Set_add (xs ++ [y]) acc = Set_add (fold_left Set_add xs acc) y.
Proof. intros acc. by rewrite fold_left_app. Qed.

Lemma includes_app xs ys x : includes (xs ++ ys) x = includes xs x || includes ys x.
Proof. unfold includes. apply existsb_app. Qed.

Lemma includes_filter (P : string → bool) xs x :
  includes (List.filter P xs) x = P x && includes xs x.
Proof.
  induction xs as [|y xs IH]; [by rewrite andb_false_r|].
  cbn [List.filter]. destruct (P y) eqn:Hy.
  - unfold includes in *. cbn [existsb]. rewrite IH.
    destruct (String.eqb x y) eqn:E; [|done].
    apply String.eqb_eq in E as ->. by rewrite Hy.
  - rewrite IH. unfold includes. cbn [existsb].
    destruct (String.eqb x y) eqn:E; [|done].
    apply String.eqb_eq in E as ->. by rewrite Hy.
Qed.

(** Starting the set from [acc] gives [acc] followed by what is new in
    the set started empty. *)
Lemma fold_Set_add_from xs : ∀ acc,
  fold_left Set_add xs acc
  = acc ++ List.filter (fun x => negb (includes acc x)) (fold_left Set_add xs []).
Proof.
  induction xs as [|y xs IH] using rev_ind; intros acc.
  - cbn. by rewrite app_nil_r.
  - rewrite !Array_from_Set_snoc, (IH acc).
    set (G := fold_left Set_add xs []).
    unfold Set_add. rewrite includes_app, includes_filter.
    destruct (includes acc y) eqn:Ha; cbn [negb andb orb].
    + destruct (includes G y); [done|]. rewrite List.filter_app. cbn [List.filter].
      rewrite Ha. cbn [negb]. by rewrite app_nil_r.
    + destruct (includes G y); [done|]. rewrite List.filter_app. cbn [List.filter].
      rewrite Ha. cbn [negb]. by rewrite app_assoc.
Qed.

(** X16.  The keyword view of a longer list of outcomes starts with
    the view of the shorter one: the keywords of the outcomes that
    follow are added after it, those already in view left out. *)
Theorem allKeywords_grows_at_the_end (rs1 rs2 : list ResultRow) :
  allKeywords (rs1 ++ rs2)
  = allKeywords rs1
    ++ List.filter (fun kw => negb (includes (allKeywords rs1) kw)) (allKeywords rs2).
Proof.
  unfold allKeywords, Array_from_Set.
  rewrite List.filter_app, flat_map_app, fold_left_app.
  apply fold_Set_add_from.
Qed.

(** ** The pet form *)

Lemma truthy_spec s : truthy s = true ↔ s ≠ "".
Proof. destruct s; split; done. Qed.

Lemma pet_step_ok s e :
  PetInputForm.image_ok s →
  PetInputForm.image_ok (PetInputForm.step s e).1 ∧
  Forall PetInputForm.complete (PetInputForm.step s e).2.
Proof.
  unfold PetInputForm.image_ok. intros Hok.
  destruct e as [v|v|v|v|[f|]|]; cbn [PetInputForm.step fst snd]; try (split; [exact Hok|done]).
  - unfold PetInputForm.handleImageChange. destruct (N.ltb_spec PetInputForm.size_limit
                                                       (PetInputForm.size f)) as [Hbig|Hfit].
    + split; [exact Hok|done].
    + split; [|done]. cbn. split; [done|done].
  - unfold PetInputForm.handleSubmit.
    destruct (PetInputForm.imageFile s) as [f|] eqn:Hf.
    + destruct (truthy (PetInputForm.name s) && truthy (PetInputForm.breed s)
                && truthy (PetInputForm.age s) && truthy (PetInputForm.quirks s)) eqn:E;
        cbn [fst snd PetInputForm.imageFile PetInputForm.imagePreview]; rewrite ?Hf;
        (split; [exact Hok|]); [|done].
      apply andb_true_iff in E as [E Hq]. apply andb_true_iff in E as [E Ha].
      apply andb_true_iff in E as [Hn Hb]. apply truthy_spec in Hn, Hb, Ha, Hq.
      apply Forall_singleton. unfold PetInputForm.complete. cbn. by destruct Hok.
    + cbn [fst snd PetInputForm.imageFile PetInputForm.imagePreview]. rewrite ?Hf.
      split; [exact Hok|done].
Qed.

Lemma pet_run_ok events : ∀ s,
  PetInputForm.image_ok s →
  PetInputForm.image_ok (PetInputForm.run events s).1 ∧
  Forall PetInputForm.complete (PetInputForm.run events s).2.
Proof.
  induction events as [|e events IH]; intros s Hok; cbn [PetInputForm.run].
  - by split.
  - destruct (pet_step_ok s e Hok) as [Hok1 Hcalls1].
    destruct (PetInputForm.step s e) as [s1 calls1]. cbn [fst snd] in *.
    destruct (IH s1 Hok1) as [Hok2 Hcalls2].
    destruct (PetInputForm.run events s1) as [s2 calls2]. cbn [fst snd] in *.
    split; [done|]. by apply Forall_app.
Qed.

(** X17.  Whatever is typed, chosen and submitted in the pet form, the
    image it holds is at most 4 MiB with the preview showing that
    image, and every call of [onAnalyze] carries a non-empty name,
    breed, age and quirks and an image of at most 4 MiB. *)
Theorem pet_form_submissions_complete (events : list PetInputForm.Event) :
  PetInputForm.image_ok (PetInputForm.run events PetInputForm.initial).1 ∧
  Forall PetInputForm.complete (PetInputForm.run events PetInputForm.initial).2.
Proof. apply pet_run_ok. reflexivity. Qed.

(** X18.  When an image above 4 MiB is chosen, the form keeps the
    image chosen before: a submission of the filled form that follows
    carries that earlier image, not the refused one. *)
Theorem refused_image_keeps_previous (s : PetInputForm.State)
    (big previous : PetInputForm.ImageFile) :
  (PetInputForm.size_limit < PetInputForm.size big)%N →
  PetInputForm.imageFile s = Some previous →
  PetInputForm.name s ≠ "" → PetInputForm.breed s ≠ "" →
  PetInputForm.age s ≠ "" → PetInputForm.quirks s ≠ "" →
  PetInputForm.error (PetInputForm.handleImageChange (Some big) s)
  = Some "Image size cannot exceed 4MB." ∧
  (PetInputForm.run [PetInputForm.ImageChange (Some big); PetInputForm.Submit] s).2
  = [PetInputForm.mkFormData (PetInputForm.name s) (PetInputForm.breed s)
       (PetInputForm.age s) (PetInputForm.quirks s) previous].
Proof.
  intros Hbig Himg Hn Hb Ha Hq.
  apply N.ltb_lt in Hbig. apply truthy_spec in Hn, Hb, Ha, Hq.
  cbn [PetInputForm.run PetInputForm.step]. unfold PetInputForm.handleImageChange.
  rewrite Hbig. cbn [PetInputForm.error]. split; [done|].
  unfold PetInputForm.handleSubmit.
  cbn [PetInputForm.imageFile PetInputForm.name PetInputForm.breed PetInputForm.age
       PetInputForm.quirks].
  rewrite Himg, Hn, Hb, Ha, Hq. reflexivity.
Qed.

Lemma refused_image_keeps_previous_witness :
  PetInputForm.error
    (PetInputForm.handleImageChange (Some (PetInputForm.mkImageFile 5000000 "blob:2"))
       (PetInputForm.mkState "Rex" "Beagle" "2 years" "Chases its tail"
          (Some (PetInputForm.mkImageFile 1000 "blob:1")) (Some "blob:1") None))
  = Some "Image size cannot exceed 4MB." ∧
  (PetInputForm.run
     [PetInputForm.ImageChange (Some (PetInputForm.mkImageFile 5000000 "blob:2"));
      PetInputForm.Submit]
     (PetInputForm.mkState "Rex" "Beagle" "2 years" "Chases its tail"
        (Some (PetInputForm.mkImageFile 1000 "blob:1")) (Some "blob:1") None)).2
  = [PetInputForm.mkFormData "Rex" "Beagle" "2 years" "Chases its tail"
       (PetInputForm.mkImageFile 1000 "blob:1")].
Proof.
  apply (refused_image_keeps_previous
           (PetInputForm.mkState "Rex" "Beagle" "2 years" "Chases its tail"
              (Some (PetInputForm.mkImageFile 1000 "blob:1")) (Some "blob:1") None)
           (PetInputForm.mkImageFile 5000000 "blob:2")
           (PetInputForm.mkImageFile 1000 "blob:1")).
  - reflexivity.
  - reflexivity.
  - discriminate.
  - discriminate.
  - discriminate.
  - discriminate.
Defined.

(** ** The single-document form *)

Lemma all_white_space_trimStart s : all_white_space (trimStart s) = all_white_space s.
Proof.
  induction s as [|c s IH]; [done|]. cbn [trimStart all_white_space].
  destruct (is_white_space c) eqn:Hc; [exact IH|]. cbn [all_white_space]. by rewrite Hc.
Qed.

Lemma trim_empty_iff s : trim s = "" ↔ all_white_space s = true.
Proof.
  unfold trim. split.
  - intros H%trimEnd_empty. by rewrite all_white_space_trimStart in H.
  - intros H. by rewrite (trimStart_all_white s H).
Qed.

Lemma truthy_trim s : truthy (trim s) = negb (all_white_space s).
Proof.
  destruct (all_white_space s) eqn:E.
  - apply trim_empty_iff in E. by rewrite E.
  - destruct (trim s) eqn:Et; [|done]. apply trim_empty_iff in Et. congruence.
Qed.

(** X19.  The form sends a request exactly when its title or its
    description has a character that is not white space; otherwise it
    only sets its error message, and the keywords on display and the
    loading flag stay as they are. *)
Theorem blank_document_is_not_sent (s : App.State) :
  ((App.submit s).2 = None ↔
   all_white_space (App.title s) && all_white_space (App.content s) = true) ∧
  ((App.submit s).2 = None →
   App.keywords (App.submit s).1 = App.keywords s ∧
   App.isLoading (App.submit s).1 = App.isLoading s ∧
   App.error (App.submit s).1
   = Some "Please provide a title or description to generate keywords.").
Proof.
  unfold App.submit, App.is_blank. rewrite !truthy_trim, !negb_involutive.
  destruct (all_white_space (App.title s) && all_white_space (App.content s));
    cbn [fst snd]; split; try done.
Qed.

Lemma blank_document_is_not_sent_witness :
  let s := App.mkState " " "" "Widgets" "" "" "" "" "" "" "" ["old"] false None "" in
  (App.submit s).2 = None ∧ App.keywords (App.submit s).1 = ["old"].
Proof.
  intros s. destruct (blank_document_is_not_sent s) as [Hsent Hkept].
  assert ((App.submit s).2 = None) as Hnone by (apply Hsent; reflexivity).
  split; [exact Hnone|]. exact (proj1 (Hkept Hnone)).
Defined.

Lemma filter_is_attribute_unreserved (lvs : list (string * string)) :
  Forall (fun lv => includes RESERVED_KEYS (toLowerCase (fst lv)) = false) lvs →
  Forall (fun lv => snd lv = "" ∨ all_white_space (snd lv) = false) lvs →
  List.filter is_attribute lvs = List.filter App.is_filled lvs.
Proof.
  induction lvs as [|[l v] lvs IH]; [done|].
  intros [Hl Hls]%Forall_cons [Hv Hvs]%Forall_cons. cbn [List.filter].
  rewrite (IH Hls Hvs). unfold is_attribute, App.is_filled. cbn [fst snd] in *.
  rewrite Hl. cbn [negb andb]. destruct Hv as [->|Hv]; [done|].
  assert (trim v ≠ "") as Ht by (intros Ht%trim_empty_iff; congruence).
  destruct v; [done|]. cbn [truthy].
  destruct (String.eqb (trim (String a v)) "") eqn:E; [|done].
  by apply String.eqb_eq in E.
Qed.

Lemma attributes_in_column_order (row : CSVRow) :
  (∀ kv, kv ∈ row → array_index (fst kv) = None) →
  attributes row
  = map (fun kv => mkAttribute (fst kv) (snd kv)) (List.filter is_attribute row).
Proof.
  intros Hnone. unfold attributes, Object_entries.
  rewrite (filter_none is_array_index row), (filter_all (λ kv, negb (is_array_index kv)) row).
  - reflexivity.
  - intros kv Hkv. unfold is_array_index. by rewrite (Hnone kv Hkv).
  - intros kv Hkv. unfold is_array_index. by rewrite (Hnone kv Hkv).
Qed.

(** X20.  For a document whose attribute values are each empty or
    hold a character that is not white space, the single-document form
    sends the very prompt that the bulk generator sends for the record
    with the same title, description and attribute columns. *)
Theorem form_and_bulk_prompts_agree (s : App.State) :
  Forall (fun lv => snd lv = "" ∨ all_white_space (snd lv) = false) (App.attribute_fields s) →
  App.userPrompt s = userPrompt (App.as_row s).
Proof.
  intros Hvals.
  assert (attributes (App.as_row s) = App.attributes s) as Hattrs.
  { rewrite attributes_in_column_order.
    - unfold App.as_row, App.attributes. cbn [List.filter].
      change (is_attribute ("title", App.title s)) with false.
      change (is_attribute ("content", App.content s)) with false. cbv iota.
      f_equal. apply filter_is_attribute_unreserved; [|done].
      unfold App.attribute_fields. repeat constructor.
    - unfold App.as_row, App.attribute_fields. intros kv Hkv.
      repeat (apply elem_of_cons in Hkv as [->|Hkv]; [reflexivity|]).
      by apply elem_of_nil in Hkv. }
  unfold App.userPrompt, userPrompt, App.attributesText, attributesText.
  rewrite Hattrs. reflexivity.
Qed.

Lemma form_and_bulk_prompts_agree_witness :
  App.userPrompt (App.mkState "Annual Report" "Revenue grew" "Widgets" "" "" "" "Finance"
                    "" "EMEA" "" [] false None "")
  = userPrompt [("title", "Annual Report"); ("content", "Revenue grew");
                ("Product Line", "Widgets"); ("Document Level", ""); ("Tools Panel", "");
                ("Operational Control Plan", ""); ("Function", "Finance"); ("Country", "");
                ("Region", "EMEA"); ("Language", "")].
Proof.
  apply (form_and_bulk_prompts_agree
           (App.mkState "Annual Report" "Revenue grew" "Widgets" "" "" "" "Finance"
              "" "EMEA" "" [] false None "")).
  unfold App.attribute_fields. cbn.
  repeat (constructor; [first [by left | by right]|]). constructor.
Defined.

Lemma edit_keeps_results field v s :
  App.keywords (App.edit field v s) = App.keywords s ∧
  App.isLoading (App.edit field v s) = App.isLoading s ∧
  App.error (App.edit field v s) = App.error s.
Proof. done. Qed.

Lemma edits_keep_results changes : ∀ s,
  App.keywords (App.edits changes s) = App.keywords s ∧
  App.isLoading (App.edits changes s) = App.isLoading s ∧
  App.error (App.edits changes s) = App.error s.
Proof.
  induction changes as [|[field v] changes IH]; intros s; [done|].
  unfold App.edits. cbn [fold_left]. apply (IH (App.edit field v s)).
Qed.

(** X21.  When a request of the form settles, whatever was typed
    meanwhile, the loading flag is down and the form shows either the
    keywords of the reply with no error, or an error with no keyword
    at all. *)
Theorem settled_request_shows_keywords_or_error (s : App.State)
    (changes : list (App.Field * string)) (reply : ApiReply) :
  (App.submit s).2 ≠ None →
  let s' := App.settle reply (App.edits changes (App.submit s).1) in
  App.isLoading s' = false ∧
  ((∃ kws, reply = Parses (JsonKeywords kws) ∧ App.keywords s' = kws ∧ App.error s' = None)
   ∨ (App.keywords s' = [] ∧ ∃ message, App.error s' = Some message)).
Proof.
  intros Hsent s'.
  destruct (edits_keep_results changes (App.submit s).1) as (Hk & Hl & He).
  unfold App.submit in Hsent, Hk, Hl, He. destruct (App.is_blank s) eqn:Hblank; [done|].
  cbn [fst App.keywords App.isLoading App.error] in Hk, Hl, He.
  subst s'. unfold App.submit. rewrite Hblank. cbn [fst].
  destruct reply as [[m|]|[| |kws]]; cbn [App.settle]; unfold App.set_result;
    cbn [App.keywords App.isLoading App.error]; rewrite ?Hk, ?He; (split; [done|]); eauto.
Qed.

Lemma settled_request_shows_keywords_or_error_witness :
  let s := App.mkState "Annual Report" "" "" "" "" "" "" "" "" "" ["old"] false None "" in
  let s' := App.settle demo_rate_limited (App.edits [(App.FTitle, "x")] (App.submit s).1) in
  App.isLoading s' = false ∧
  ((∃ kws, demo_rate_limited = Parses (JsonKeywords kws) ∧ App.keywords s' = kws
           ∧ App.error s' = None)
   ∨ (App.keywords s' = [] ∧ ∃ message, App.error s' = Some message)).
Proof.
  apply (settled_request_shows_keywords_or_error
           (App.mkState "Annual Report" "" "" "" "" "" "" "" "" "" ["old"] false None "")
           [(App.FTitle, "x")] demo_rate_limited).
  vm_compute. discriminate.
Defined.

(** ** Reading an export back *)

Lemma scan_double_quotes pending v : scan pending (double_quotes v) = pending.
Proof.
  revert pending. induction v as [|c v IH]; intros pending; [done|].
  cbn [double_quotes]. destruct (Ascii.eqb c dquote) eqn:E; cbn [scan].
  - change (Ascii.eqb dquote dquote) with true. cbv iota.
    rewrite negb_involutive. apply IH.
  - rewrite E. apply IH.
Qed.

Lemma is_row_sep_dquote rest : is_row_sep dquote rest = false.
Proof. reflexivity. Qed.

Lemma sep_free_escaped v tail :
  scan false tail = false → sep_free is_row_sep (double_quotes v +:+ Q) tail = true.
Proof.
  intros Htail. induction v as [|c v IH]; [reflexivity|].
  cbn [double_quotes]. destruct (Ascii.eqb c dquote) eqn:E.
  - rewrite !string_app_cons. cbn [sep_free]. rewrite !is_row_sep_dquote. exact IH.
  - rewrite string_app_cons. cbn [sep_free]. rewrite IH, andb_true_r.
    apply negb_true_iff. unfold is_row_sep, lookahead.
    rewrite lookahead_from_scan, string_app_assoc, !scan_app, scan_double_quotes.
    unfold Q. cbn [scan]. change (Ascii.eqb dquote dquote) with true. cbv iota.
    rewrite (scan_negb false), Htail. apply andb_false_r.
Qed.

Lemma balanced_escaped v : balanced_field (quoted (double_quotes v)).
Proof.
  split.
  - unfold quoted, Q. rewrite !scan_app. cbn [scan].
    change (Ascii.eqb dquote dquote) with true. cbv iota.
    rewrite scan_double_quotes. reflexivity.
  - intros tail Htail. unfold quoted. unfold Q at 1.
    rewrite string_app_cons, string_app_nil_l. cbn [sep_free].
    rewrite is_row_sep_dquote. by apply sep_free_escaped.
Qed.

Lemma double_quotes_plain v : contains dquote v = false → double_quotes v = v.
Proof.
  induction v as [|c v IH]; [done|]. cbn [contains double_quotes].
  intros [-> Hv]%orb_false_iff. by rewrite IH.
Qed.

Lemma balanced_plain v : contains dquote v = false → balanced_field (quoted v).
Proof. intros Hv. rewrite <- (double_quotes_plain v Hv). apply balanced_escaped. Qed.

Lemma split_row_join_balanced fields :
  fields ≠ [] → Forall balanced_field fields →
  split_row (join "," fields) = fields ∧ scan false (join "," fields) = false.
Proof.
  induction fields as [|f fields IH]; [done|]. intros _ Hall.
  apply Forall_cons in Hall as [[Hscan Hfree] Hall].
  destruct fields as [|g fields].
  - cbn [join]. split; [|done]. apply split_on_last. by apply Hfree.
  - destruct (IH ltac:(done) Hall) as [Hsplit Hscan'].
    change (join "," (f :: g :: fields)) with (f +:+ String comma (join "," (g :: fields))).
    split.
    + unfold split_row. rewrite split_on_sep.
      * f_equal. exact Hsplit.
      * by apply Hfree.
      * unfold is_row_sep, lookahead. rewrite lookahead_from_scan, Hscan'. reflexivity.
    + rewrite scan_app, Hscan. exact Hscan'.
Qed.

Lemma sep_free_char c f tail :
  contains c f = false → sep_free (fun x _ => Ascii.eqb x c) f tail = true.
Proof.
  induction f as [|x f IH]; [done|]. cbn [contains sep_free].
  intros [-> Hf]%orb_false_iff. by apply IH.
Qed.

(** Splitting at a character undoes joining with it. *)
Lemma split_char_join c pieces :
  pieces ≠ [] → Forall (fun p => contains c p = false) pieces →
  split_char c (join (String c "") pieces) = pieces.
Proof.
  induction pieces as [|p pieces IH]; [done|]. intros _ [Hp Hall]%Forall_cons.
  destruct pieces as [|q pieces].
  - cbn [join]. apply split_on_last. by apply sep_free_char.
  - change (join (String c "") (p :: q :: pieces))
      with (p +:+ String c (join (String c "") (q :: pieces))).
    unfold split_char. rewrite split_on_sep.
    + f_equal. by apply IH.
    + by apply sep_free_char.
    + apply Ascii.eqb_refl.
Qed.

Lemma contains_join c sep pieces :
  contains c sep = false → Forall (fun p => contains c p = false) pieces →
  contains c (join sep pieces) = false.
Proof.
  intros Hsep. induction pieces as [|p pieces IH]; [done|]. intros [Hp Hall]%Forall_cons.
  destruct pieces as [|q pieces]; [done|].
  change (join sep (p :: q :: pieces)) with (p +:+ sep +:+ join sep (q :: pieces)).
  by rewrite !contains_app, Hp, Hsep, (IH Hall).
Qed.

Lemma contains_double_quotes c v :
  Ascii.eqb dquote c = false → contains c (double_quotes v) = contains c v.
Proof.
  intros Hc. induction v as [|x v IH]; [done|]. cbn [double_quotes contains].
  destruct (Ascii.eqb x dquote) eqn:E.
  - apply Ascii.eqb_eq in E as ->. cbn [contains]. by rewrite Hc, IH.
  - cbn [contains]. by rewrite IH.
Qed.

Lemma contains_quoted c v :
  Ascii.eqb dquote c = false → contains c (quoted v) = contains c v.
Proof.
  intros Hc. unfold quoted, Q. rewrite !contains_app. cbn [contains].
  by rewrite Hc, !orb_false_r.
Qed.

Lemma trimStart_solid s : starts_solid s = true → trimStart s = s.
Proof. destruct s as [|c s]; [done|]. cbn. by intros ->%negb_true_iff. Qed.

Lemma trimEnd_endsWith_dquote s : endsWith_dquote s = true → trimEnd s = s.
Proof.
  induction s as [|c s IH]; [done|]. cbn [endsWith_dquote trimEnd].
  destruct s as [|c' s].
  - intros ->%Ascii.eqb_eq. reflexivity.
  - intros H. rewrite (IH H). reflexivity.
Qed.

Lemma starts_solid_app a b : a ≠ "" → starts_solid (a +:+ b) = starts_solid a.
Proof. by destruct a. Qed.

Lemma endsWith_dquote_app a b : b ≠ "" → endsWith_dquote (a +:+ b) = endsWith_dquote b.
Proof.
  intros Hb. induction a as [|c a IH]; [done|]. rewrite string_app_cons.
  cbn [endsWith_dquote]. destruct (a +:+ b) eqn:E; [|exact IH].
  destruct a; [by rewrite string_app_nil_l in E|discriminate E].
Qed.

Lemma length_trimStart s : String.length (trimStart s) ≤ String.length s.
Proof.
  induction s as [|c s IH]; [done|]. cbn [trimStart].
  destruct (is_white_space c); cbn [String.length]; lia.
Qed.

Lemma length_trimEnd s : String.length (trimEnd s) ≤ String.length s.
Proof.
  induction s as [|c s IH]; [done|]. cbn [trimEnd].
  destruct (trimEnd s); [destruct (is_white_space c)|]; cbn [String.length] in *; lia.
Qed.

(** A trimmed string that is not empty starts with a character that
    [trim] keeps. *)
Lemma trimmed_starts_solid h : trim h = h → h ≠ "" → starts_solid h = true.
Proof.
  destruct h as [|c h]; [done|]. intros Ht _. cbn. apply negb_true_iff.
  destruct (is_white_space c) eqn:Hc; [|done]. exfalso.
  unfold trim in Ht. cbn [trimStart] in Ht. rewrite Hc in Ht.
  pose proof (length_trimEnd (trimStart h)). pose proof (length_trimStart h).
  rewrite Ht in H. cbn [String.length] in H. lia.
Qed.

Lemma join_cons_cons sep x y ys :
  join sep (x :: y :: ys) = x +:+ sep +:+ join sep (y :: ys).
Proof. reflexivity. Qed.

Lemma join_not_empty sep x xs : sep ≠ "" → xs ≠ [] → join sep (x :: xs) ≠ "".
Proof.
  intros Hsep Hxs. destruct xs as [|y ys]; [done|]. rewrite join_cons_cons.
  destruct x; [|done]. rewrite string_app_nil_l. by destruct sep.
Qed.

Lemma starts_solid_join_comma h hs :
  trim h = h → hs ≠ [] → starts_solid (join "," (h :: hs)) = true.
Proof.
  intros Ht Hhs. destruct hs as [|h' hs]; [done|]. rewrite join_cons_cons.
  destruct h as [|c h]; [done|].
  rewrite starts_solid_app by done. by apply trimmed_starts_solid.
Qed.

Lemma endsWith_dquote_join sep xs :
  xs ≠ [] → Forall (fun x => endsWith_dquote x = true) xs →
  endsWith_dquote (join sep xs) = true.
Proof.
  induction xs as [|x xs IH]; [done|]. intros _ [Hx Hxs]%Forall_cons.
  destruct xs as [|y ys]; [done|]. rewrite join_cons_cons, <- string_app_assoc.
  rewrite endsWith_dquote_app; [by apply IH|].
  intros E. specialize (IH ltac:(done) Hxs). by rewrite E in IH.
Qed.

Lemma endsWith_dquote_quoted v : endsWith_dquote (quoted v) = true.
Proof. unfold quoted. rewrite <- string_app_assoc. apply endsWith_dquote_snoc. Qed.

Lemma export_line_ends hs row r : endsWith_dquote (export_line hs row r) = true.
Proof.
  unfold export_line. apply endsWith_dquote_join.
  - by destruct (map double_quotes (values_of hs row)).
  - apply Forall_forall. intros x (v & -> & _)%list_elem_of_fmap.
    apply endsWith_dquote_quoted.
Qed.

Lemma original_values_line row hs :
  (∀ h, h ∈ hs → is_Some (own_property h row)) →
  mapM (original_value row) hs = Some (map quoted (map double_quotes (values_of hs row))).
Proof.
  induction hs as [|h hs IH]; intros Hown; [done|].
  destruct (Hown h) as [v Hv]; [by left|].
  cbn [mapM values_of map].
  assert (original_value row h = Some (quoted (double_quotes v))) as ->
    by (unfold original_value, row_get; by rewrite Hv).
  fold (values_of hs row). rewrite IH by (intros h' Hh'; apply Hown; by right).
  rewrite Hv. reflexivity.
Qed.

Lemma export_row_line hs row r :
  (∀ h, h ∈ hs → is_Some (own_property h row)) →
  export_row hs row (Some r) = Some (export_line hs row r).
Proof.
  intros Hown. unfold export_row, export_line. cbn [mbind option_bind].
  rewrite (original_values_line row hs Hown). cbn [mbind option_bind].
  by rewrite map_app.
Qed.

(** The export, line by line. *)
Lemma csvContent_lines s :
  length (results s) = length (rows (csvData s)) →
  (∀ row h, row ∈ rows (csvData s) → h ∈ headers (csvData s) →
            is_Some (own_property h row)) →
  csvContent s
  = Some (join NL (join "," (headers (csvData s) ++ ["Keywords"; "Status"])
                   :: zip_with (export_line (headers (csvData s)))
                               (rows (csvData s)) (results s))).
Proof.
  intros Hlen Hown. unfold csvContent.
  rewrite (mapM_Some_2 _ _ (zip_with (export_line (headers (csvData s)))
                                     (rows (csvData s)) (results s))); [done|].
  apply Forall2_same_length_lookup_2.
  - rewrite length_imap, length_zip_with_l_eq; done.
  - intros i [i' row] line Hir Hline.
    apply list_lookup_imap_Some in Hir as (row' & Hrow' & [= -> ->]).
    apply lookup_zip_with_Some in Hline as (row & r & -> & Hrow & Hr).
    rewrite Hrow in Hrow'. injection Hrow' as <-. cbn [fst snd]. rewrite Hr.
    apply export_row_line. intros h Hh. apply Hown; [|done].
    by eapply list_elem_of_lookup_2.
Qed.

Lemma NoDup_not_later (l : list string) j h :
  NoDup l → l !! j = Some h → h ∉ drop (S j) l.
Proof.
  intros Hnd Hj [k Hk]%list_elem_of_lookup. rewrite lookup_drop in Hk.
  pose proof (NoDup_lookup l j (S j + k) h Hnd Hj Hk). lia.
Qed.

Lemma field_at_quoted fields j x :
  fields !! j = Some (quoted x) → strip_quotes (field_at fields j) = x.
Proof. intros Hj. unfold field_at. rewrite Hj, trim_quoted. apply strip_quotes_quoted. Qed.

Lemma map_trim_id hs : Forall (fun h => trim h = h) hs → map trim hs = hs.
Proof. induction 1 as [|h hs Hh _ IH]; [done|]. cbn. by rewrite Hh, IH. Qed.

(** An exported line has no line break when its values have none. *)
Lemma export_line_one_line c hs row r :
  Ascii.eqb dquote c = false → Ascii.eqb comma c = false →
  (∀ h, h ∈ hs → ∃ v, own_property h row = Some v ∧ contains c v = false) →
  contains c (join "; " (ResultRow.keywords r)) = false →
  contains c (status_cell r) = false →
  contains c (export_line hs row r) = false.
Proof.
  intros Hq Hc Hvals Hkw Hst. unfold export_line. apply contains_join.
  - change (contains c ",") with (Ascii.eqb comma c || false). by rewrite Hc.
  - rewrite map_app. apply Forall_app. split.
    + apply Forall_forall. intros x (y & -> & (v & -> & Hv)%list_elem_of_fmap)%list_elem_of_fmap.
      unfold values_of in Hv. apply list_elem_of_fmap in Hv as (h & -> & Hh).
      destruct (Hvals h Hh) as (v & -> & Hv). cbn [default].
      by rewrite contains_quoted, contains_double_quotes.
    + repeat constructor; by rewrite contains_quoted.
Qed.

(** X22.  Reading an export back.  Take a table with at least one
    record, distinct clean header names other than Keywords and Status,
    values without line break, and outcomes whose keywords and status
    cell have neither double quote nor line break.  Then [parseCSV]
    reads the exported text as a table with the same headers followed
    by Keywords and Status and with one record per record, in which
    each original value appears with its double quotes doubled (so
    unchanged when it has none, commas included) and the two derived
    columns hold the joined keywords and the status cell. *)
Theorem export_reads_back (s : State) :
  rows (csvData s) ≠ [] →
  length (results s) = length (rows (csvData s)) →
  NoDup (headers (csvData s) ++ ["Keywords"; "Status"]) →
  Forall clean_header (headers (csvData s)) →
  (∀ row h, row ∈ rows (csvData s) → h ∈ headers (csvData s) →
            ∃ v, own_property h row = Some v ∧ no_line_break v) →
  (∀ r, r ∈ results s →
        plain_cell (join "; " (ResultRow.keywords r)) ∧ plain_cell (status_cell r)) →
  ∃ text, csvContent s = Some text ∧
    headers (parseCSV text) = headers (csvData s) ++ ["Keywords"; "Status"] ∧
    length (rows (parseCSV text)) = length (rows (csvData s)) ∧
    ∀ i row r, rows (csvData s) !! i = Some row → results s !! i = Some r →
      ∃ row', rows (parseCSV text) !! i = Some row' ∧
        (∀ h v, h ∈ headers (csvData s) → own_property h row = Some v →
                own_property h row' = Some (double_quotes v)) ∧
        own_property "Keywords" row' = Some (join "; " (ResultRow.keywords r)) ∧
        own_property "Status" row' = Some (status_cell r).
Proof.
  intros Hrows Hlen Hnd Hhs Hvals Hres.
  set (hs := headers (csvData s)) in *.
  set (hs' := hs ++ ["Keywords"; "Status"]) in *.
  set (lines := zip_with (export_line hs) (rows (csvData s)) (results s)).
  set (H := join "," hs').
  assert (csvContent s = Some (join NL (H :: lines))) as Hexport.
  { apply csvContent_lines; [done|]. intros row h Hrow Hh.
    destruct (Hvals row h Hrow Hh) as (v & -> & _). eauto. }
  assert (length lines = length (rows (csvData s))) as Hlines
    by (apply length_zip_with_l_eq; done).
  assert (∀ c, Ascii.eqb dquote c = false → Ascii.eqb comma c = false →
               (c = CR ∨ c = LF) → Forall (fun l => contains c l = false) (H :: lines))
    as Hclean.
  { intros c Hq Hc Hbreak. apply Forall_cons. split.
    - apply contains_join;
        [change (contains c ",") with (Ascii.eqb comma c || false); by rewrite Hc|].
      apply Forall_app. split.
      + eapply Forall_impl; [exact Hhs|]. intros h (_ & _ & [Hcr Hlf] & _).
        by destruct Hbreak as [-> | ->].
      + destruct Hbreak as [-> | ->]; repeat constructor.
    - apply Forall_forall. intros line Hline.
      apply elem_of_lookup_zip_with in Hline as (i & row & r & -> & Hrow & Hr).
      apply list_elem_of_lookup_2 in Hrow, Hr.
      destruct (Hres r Hr) as [(_ & Hk1 & Hk2) (_ & Hs1 & Hs2)].
      apply export_line_one_line; try done.
      + intros h Hh. destruct (Hvals row h Hrow Hh) as (v & Hv & Hv1 & Hv2).
        exists v. split; [done|]. by destruct Hbreak as [-> | ->].
      + by destruct Hbreak as [-> | ->].
      + by destruct Hbreak as [-> | ->]. }
  assert (lines_of (join NL (H :: lines)) = H :: lines) as Hlinesof.
  { destruct lines as [|l ls] eqn:El; [destruct (rows (csvData s)); done|].
    assert (H ≠ "") as HH.
    { subst H hs'. destruct hs as [|h t]; [done|]. apply join_not_empty; [done|].
      by destruct t. }
    assert (starts_solid H = true) as Hsolid.
    { subst H hs'. destruct hs as [|h t] eqn:Ehs; [reflexivity|].
      apply Forall_cons in Hhs as [(Ht & _) _].
      apply (starts_solid_join_comma h (t ++ ["Keywords"; "Status"]) Ht). by destruct t. }
    assert (endsWith_dquote (join NL (l :: ls)) = true) as Hend.
    { apply endsWith_dquote_join; [done|]. rewrite <- El. apply Forall_forall.
      intros line Hline. subst lines.
      apply elem_of_lookup_zip_with in Hline as (i & row & r & -> & _).
      apply export_line_ends. }
    unfold lines_of.
    assert (trim (join NL (H :: l :: ls)) = join NL (H :: l :: ls)) as ->.
    { unfold trim. rewrite trimStart_solid.
      - apply trimEnd_endsWith_dquote. rewrite join_cons_cons, <- string_app_assoc.
        rewrite endsWith_dquote_app; [done|]. intros E. by rewrite E in Hend.
      - rewrite join_cons_cons. by rewrite starts_solid_app. }
    rewrite replace_crlf_no_CR.
    - apply (split_char_join LF (H :: l :: ls)); [done|].
      apply Hclean; [done|done|by right].
    - apply contains_join; [done|]. apply Hclean; [done|done|by left]. }
  exists (join NL (H :: lines)). split; [done|].
  assert (split_char comma H = hs') as Hsplit.
  { apply (split_char_join comma hs'); [subst hs'; by destruct hs|].
    subst hs'. apply Forall_app. split.
    - eapply Forall_impl; [exact Hhs|]. by intros h (_ & Hc & _).
    - repeat constructor. }
  assert (map trim hs' = hs') as Htrim.
  { apply map_trim_id. subst hs'. apply Forall_app. split.
    - eapply Forall_impl; [exact Hhs|]. by intros h (Ht & _).
    - repeat constructor. }
  unfold parseCSV. rewrite Hlinesof.
  destruct lines as [|l ls] eqn:El; [destruct (rows (csvData s)); done|].
  rewrite <- El in *. cbn [headers rows]. rewrite Hsplit, Htrim.
  split; [done|]. split; [by rewrite length_map|].
  intros i row r Hrow Hr.
  assert (lines !! i = Some (export_line hs row r)) as Hline.
  { subst lines. apply lookup_zip_with_Some. by exists row, r. }
  rewrite list_lookup_fmap, Hline. cbn [fmap option_fmap option_map].
  eexists. split; [reflexivity|].
  assert (split_row (export_line hs row r)
          = map quoted (map double_quotes (values_of hs row)
                        ++ [join "; " (ResultRow.keywords r); status_cell r])) as Hfields.
  { unfold export_line. apply split_row_join_balanced.
    - by destruct (map double_quotes (values_of hs row)).
    - rewrite map_app. apply Forall_app. split.
      + apply Forall_forall.
        intros x (y & -> & (v & -> & _)%list_elem_of_fmap)%list_elem_of_fmap.
        apply balanced_escaped.
      + apply list_elem_of_lookup_2 in Hr. destruct (Hres r Hr) as [(Hk & _) (Hst & _)].
        repeat constructor; by apply balanced_plain. }
  assert (length (map double_quotes (values_of hs row)) = length hs) as Hlenv
    by (unfold values_of; by rewrite !length_map).
  split; [|split].
  - intros h v Hh Hv. apply list_elem_of_lookup in Hh as [j Hj].
    rewrite (parse_row_lookup hs' _ j h).
    + f_equal. rewrite Hfields. apply field_at_quoted.
      rewrite list_lookup_fmap, lookup_app_l by (rewrite Hlenv; by eapply lookup_lt_Some).
      unfold values_of. rewrite !list_lookup_fmap, Hj. cbn. by rewrite Hv.
    + subst hs'. by apply lookup_app_l_Some.
    + eapply Forall_forall in Hhs; [|by eapply list_elem_of_lookup_2].
      by destruct Hhs as (_ & _ & _ & Hp).
    + apply NoDup_not_later; [done|]. subst hs'. by apply lookup_app_l_Some.
  - rewrite (parse_row_lookup hs' _ (length hs) "Keywords").
    + f_equal. rewrite Hfields. apply field_at_quoted.
      rewrite list_lookup_fmap, lookup_app_r by lia. rewrite Hlenv, Nat.sub_diag. done.
    + subst hs'. rewrite lookup_app_r by lia. by rewrite Nat.sub_diag.
    + done.
    + apply NoDup_not_later; [done|]. subst hs'. rewrite lookup_app_r by lia.
      by rewrite Nat.sub_diag.
  - rewrite (parse_row_lookup hs' _ (S (length hs)) "Status").
    + f_equal. rewrite Hfields. apply field_at_quoted.
      rewrite list_lookup_fmap, lookup_app_r by lia.
      rewrite Hlenv. replace (S (length hs) - length hs) with 1 by lia. done.
    + subst hs'. rewrite lookup_app_r by lia.
      replace (S (length hs) - length hs) with 1 by lia. done.
    + done.
    + apply NoDup_not_later; [done|]. subst hs'. rewrite lookup_app_r by lia.
      replace (S (length hs) - length hs) with 1 by lia. done.
Qed.

Lemma export_reads_back_witness :
  ∃ text, csvContent demo_done = Some text ∧
    headers (parseCSV text) = headers (csvData demo_done) ++ ["Keywords"; "Status"] ∧
    length (rows (parseCSV text)) = length (rows (csvData demo_done)) ∧
    ∀ i row r, rows (csvData demo_done) !! i = Some row → results demo_done !! i = Some r →
      ∃ row', rows (parseCSV text) !! i = Some row' ∧
        (∀ h v, h ∈ headers (csvData demo_done) → own_property h row = Some v →
                own_property h row' = Some (double_quotes v)) ∧
        own_property "Keywords" row' = Some (join "; " (ResultRow.keywords r)) ∧
        own_property "Status" row' = Some (status_cell r).
Proof.
  apply (export_reads_back demo_done).
  - discriminate.
  - reflexivity.
  - unfold demo_done. cbn [csvData headers app].
    repeat (apply NoDup_cons_2;
            [intros H; repeat (apply elem_of_cons in H as [H|H]; [discriminate H|]);
             by apply elem_of_nil in H|]).
    apply NoDup_nil_2.
  - unfold demo_done. cbn [csvData headers].
    repeat (apply Forall_cons; split;
            [split; [reflexivity|split; [reflexivity|split; [by split|discriminate]]]|]).
    apply Forall_nil_2.
  - unfold demo_done. cbn [csvData headers rows]. intros row h Hrow Hh.
    apply elem_of_cons in Hrow as [->|Hrow];
      [|apply elem_of_cons in Hrow as [->|Hrow]; [|by apply elem_of_nil in Hrow]];
      (apply elem_of_cons in Hh as [->|Hh];
       [|apply elem_of_cons in Hh as [->|Hh];
         [|apply elem_of_cons in Hh as [->|Hh]; [|by apply elem_of_nil in Hh]]]);
      (eexists; split; [reflexivity|by split]).
  - unfold demo_done. cbn [results]. intros r Hr.
    apply elem_of_cons in Hr as [->|Hr];
      [|apply elem_of_cons in Hr as [->|Hr]; [|by apply elem_of_nil in Hr]];
      (split; (split; [reflexivity|by split])).
Defined.

(** ** What a parsed table never holds *)

Lemma contains_cons_first c x pieces :
  Ascii.eqb x c = false → Forall (fun p => contains c p = false) pieces →
  Forall (fun p => contains c p = false) (cons_first x pieces).
Proof.
  intros Hx Hall. destruct pieces as [|p ps]; cbn [cons_first].
  - apply Forall_singleton. cbn [contains]. by rewrite Hx.
  - apply Forall_cons in Hall as [Hp Hps]. apply Forall_cons. split; [|done].
    cbn [contains]. by rewrite Hx.
Qed.

(** The pieces of a split at [c] are free of [c]. *)
Lemma split_char_pieces c s : Forall (fun p => contains c p = false) (split_char c s).
Proof.
  unfold split_char. induction s as [|x s IH]; [by apply Forall_singleton|].
  cbn [split_on]. destruct (Ascii.eqb x c) eqn:E.
  - by apply Forall_cons.
  - by apply contains_cons_first.
Qed.

(** The pieces of a split hold no character that the string lacks. *)
Lemma split_on_pieces is_sep c s :
  contains c s = false → Forall (fun p => contains c p = false) (split_on is_sep s).
Proof.
  induction s as [|x s IH]; [intros _; by apply Forall_singleton|].
  cbn [contains split_on]. intros [Hx Hs]%orb_false_iff.
  destruct (is_sep x s).
  - apply Forall_cons. split; [done|by apply IH].
  - apply contains_cons_first; [done|by apply IH].
Qed.

Lemma contains_trimStart c s : contains c s = false → contains c (trimStart s) = false.
Proof.
  induction s as [|x s IH]; [done|]. cbn [contains trimStart].
  intros [Hx Hs]%orb_false_iff. destruct (is_white_space x); [by apply IH|].
  cbn [contains]. by rewrite Hx, Hs.
Qed.

Lemma contains_trimEnd c s : contains c s = false → contains c (trimEnd s) = false.
Proof.
  induction s as [|x s IH]; [done|]. cbn [contains]. intros [Hx Hs]%orb_false_iff.
  rewrite trimEnd_cons. destruct (all_white_space s).
  - destruct (is_white_space x); [done|]. cbn [contains]. by rewrite Hx.
  - cbn [contains]. by rewrite Hx, (IH Hs).
Qed.

Lemma contains_trim c s : contains c s = false → contains c (trim s) = false.
Proof. intros H. unfold trim. by apply contains_trimEnd, contains_trimStart. Qed.

Lemma contains_remove_last c s : contains c s = false → contains c (remove_last s) = false.
Proof.
  induction s as [|x s IH]; [done|]. cbn [contains remove_last].
  intros [Hx Hs]%orb_false_iff. destruct s; [done|]. cbn [contains]. rewrite Hx.
  by apply IH.
Qed.

Lemma contains_strip_quotes c s : contains c s = false → contains c (strip_quotes s) = false.
Proof.
  intros H. unfold strip_quotes. destruct (_ && _); [|done].
  destruct s as [|x s]; [done|]. cbn [slice_1_m1]. apply contains_remove_last.
  cbn [contains] in H. by apply orb_false_iff in H as [_ H].
Qed.

Lemma all_white_space_trimEnd s : all_white_space (trimEnd s) = all_white_space s.
Proof.
  induction s as [|c s IH]; [done|]. rewrite trimEnd_cons. cbn [all_white_space].
  destruct (all_white_space s) eqn:Hs.
  - destruct (is_white_space c) eqn:Hc; [done|]. cbn [all_white_space]. by rewrite Hc.
  - cbn [all_white_space]. by rewrite IH, !andb_false_r.
Qed.

Lemma trimEnd_idemp s : trimEnd (trimEnd s) = trimEnd s.
Proof.
  induction s as [|c s IH]; [done|]. rewrite (trimEnd_cons c s).
  destruct (all_white_space s) eqn:Hs.
  - destruct (is_white_space c) eqn:Hc; [done|]. cbn [trimEnd]. by rewrite Hc.
  - rewrite trimEnd_cons, all_white_space_trimEnd, Hs. by rewrite IH.
Qed.

Lemma trimStart_solid_or_empty s : trimStart s = "" ∨ starts_solid (trimStart s) = true.
Proof.
  induction s as [|c s IH]; [by left|]. cbn [trimStart].
  destruct (is_white_space c) eqn:Hc; [exact IH|]. right. cbn. by rewrite Hc.
Qed.

Lemma trim_idemp s : trim (trim s) = trim s.
Proof.
  unfold trim. destruct (trimStart_solid_or_empty s) as [->|Hsolid]; [done|].
  destruct (trimStart s) as [|c u] eqn:E; [done|]. cbn in Hsolid.
  apply negb_true_iff in Hsolid.
  assert (all_white_space (String c u) = false) as Hnot by (cbn; by rewrite Hsolid).
  destruct (trimEnd_first c u Hnot) as [t Ht]. rewrite Ht. cbn [trimStart].
  rewrite Hsolid, <- Ht. apply trimEnd_idemp.
Qed.

Lemma elem_of_define_property kv k v row :
  kv ∈ define_property k v row → kv ∈ row ∨ snd kv = v.
Proof.
  induction row as [|[k0 v0] row IH]; cbn [define_property].
  - intros ->%list_elem_of_singleton. by right.
  - destruct (String.eqb k0 k).
    + intros [->|H]%elem_of_cons; [by right|left; by right].
    + intros [->|H]%elem_of_cons; [left; by left|].
      destruct (IH H) as [H'|H']; [left; by right|by right].
Qed.

Lemma elem_of_assign_columns kv cell cols : ∀ row,
  kv ∈ assign_columns cell cols row → kv ∈ row ∨ ∃ i, snd kv = cell i.
Proof.
  induction cols as [|[i k] cols IH]; intros row; [by left|].
  rewrite assign_columns_cons. intros [H|H]%IH; [|by right].
  unfold row_set in H. destruct (String.eqb k "__proto__"); [by left|].
  apply elem_of_define_property in H as [H|H]; [by left|right; by exists i].
Qed.

(** X23.  Whatever the text, the header names that [parseCSV] returns
    are trimmed and hold neither comma nor line feed, and no value of
    a record holds a line feed. *)
Theorem parsed_table_is_clean (text : string) :
  Forall (fun h => trim h = h ∧ contains comma h = false ∧ contains LF h = false)
         (headers (parseCSV text)) ∧
  ∀ row k v, row ∈ rows (parseCSV text) → (k, v) ∈ row → contains LF v = false.
Proof.
  pose proof (split_char_pieces LF (replace_crlf (trim text))) as Hlines.
  unfold parseCSV, lines_of. 
  destruct (split_char LF (replace_crlf (trim text))) as [|first [|l rest]];
    cbn [headers rows]; try (split; [done|]; intros row k v H; by apply elem_of_nil in H).
  apply Forall_cons in Hlines as [Hfirst Hrest]. split.
  - apply Forall_forall. intros h (p & -> & Hp)%list_elem_of_fmap.
    split; [apply trim_idemp|]. split.
    + apply contains_trim.
      by eapply (proj1 (Forall_forall _ _) (split_char_pieces comma first)).
    + apply contains_trim.
      by eapply (proj1 (Forall_forall _ _) (split_on_pieces _ LF first Hfirst)).
  - intros row k v (line & -> & Hline)%list_elem_of_fmap Hkv.
    assert (contains LF line = false) as Hl
      by (by eapply (proj1 (Forall_forall _ _) Hrest)).
    unfold parse_row in Hkv. apply elem_of_assign_columns in Hkv as [Hkv|[i Hv]].
    + by apply elem_of_nil in Hkv.
    + cbn [snd] in Hv. subst v. apply contains_strip_quotes. unfold field_at.
      apply contains_trim. destruct (split_row line !! i) as [f|] eqn:Ef; [|done].
      apply list_elem_of_lookup_2 in Ef.
      by eapply (proj1 (Forall_forall _ _) (split_on_pieces _ LF line Hl)).
Qed.
